(** * Repository-context extraction and README scoring

    A shallow embedding of the selection, budgeting, listing, gating and
    scoring logic of [scripts/prepare_data.py], [scripts/inference.py] and
    [scripts/evaluate.py] of the code-readme-writer project, and the prompt
    of [app.py], with the properties its specification states about them
    and further properties of the code. *)

From Stdlib Require Import String Ascii List ZArith NArith Bool Lia.
From Stdlib Require Import Sorted Permutation DecimalString.
Import ListNotations.
Open Scope Z_scope.

(** ** Python text primitives

    A Python [str] is a sequence of Unicode code points; [len] counts code
    points.  A code point is a natural number. *)

Module Py.

Definition char := N.
Definition str := list char.

(** A string literal of the source (ASCII only). *)
Definition lit (s : string) : str := map N_of_ascii (list_ascii_of_string s).
Arguments lit s%_string.

Definition len {A} (s : list A) : Z := Z.of_nat (length s).

Definition str_eqb (a b : str) : bool :=
  if list_eq_dec N.eq_dec a b then true else false.

(** [x in xs] for a tuple, list or set of strings. *)
Definition mem (x : str) (xs : list str) : bool := existsb (str_eqb x) xs.

(** [s[:k]], also for a negative [k]. *)
Definition slice_to {A} (k : Z) (s : list A) : list A :=
  if k <? 0 then firstn (length s - Z.to_nat (- k)) s
  else firstn (Z.to_nat k) s.

(** [s[i:]] for [0 <= i]. *)
Definition slice_from {A} (i : Z) (s : list A) : list A := skipn (Z.to_nat i) s.

Fixpoint startswith (prefix s : str) : bool :=
  match prefix, s with
  | [], _ => true
  | _ :: _, [] => false
  | a :: prefix', b :: s' => (a =? b)%N && startswith prefix' s'
  end.

(** [sub in s]: substring test. *)
Fixpoint contains (sub s : str) : bool :=
  startswith sub s ||
  match s with
  | [] => false
  | _ :: s' => contains sub s'
  end.

(** [s.count(sub)] for a non-empty [sub]: occurrences counted left to right
    without overlap.  [skip] is the number of characters of the last
    occurrence still to be passed over. *)
Fixpoint count_from (sub : str) (skip : nat) (s : str) : Z :=
  match s with
  | [] => 0
  | _ :: s' =>
      match skip with
      | S k => count_from sub k s'
      | O => if startswith sub s
             then 1 + count_from sub (length sub - 1) s'
             else count_from sub 0 s'
      end
  end.

Definition count (sub s : str) : Z := count_from sub 0 s.

(** [sep.join(parts)]. *)
Fixpoint join (sep : str) (parts : list str) : str :=
  match parts with
  | [] => []
  | [p] => p
  | p :: rest => p ++ sep ++ join sep rest
  end.

(** [s.split(sep)] for a one-character separator: never returns the empty
    list, [''.split(sep)] is [['']]. *)
Fixpoint split (sep : char) (s : str) : list str :=
  match s with
  | [] => [[]]
  | c :: s' =>
      if (c =? sep)%N then [] :: split sep s'
      else match split sep s' with
           | [] => [[c]]
           | w :: ws => (c :: w) :: ws
           end
  end.

(** [str.isspace] on one code point: the characters [split()] and [strip()]
    treat as white space. *)
Definition isspace (c : char) : bool :=
  ((9 <=? c) && (c <=? 13) || (28 <=? c) && (c <=? 32) ||
   (c =? 133) || (c =? 160) || (c =? 5760) ||
   (8192 <=? c) && (c <=? 8202) ||
   (c =? 8232) || (c =? 8233) || (c =? 8239) || (c =? 8287) || (c =? 12288))%N.

(** [s.split()]: the maximal runs of non-white-space characters.  [cur] is
    the word being read, reversed. *)
Fixpoint split_ws_from (cur : str) (s : str) : list str :=
  match s with
  | [] => match cur with [] => [] | _ => [rev cur] end
  | c :: s' =>
      if isspace c
      then match cur with
           | [] => split_ws_from [] s'
           | _ => rev cur :: split_ws_from [] s'
           end
      else split_ws_from (c :: cur) s'
  end.

Definition split_ws (s : str) : list str := split_ws_from [] s.

Fixpoint lstrip (s : str) : str :=
  match s with
  | c :: s' => if isspace c then lstrip s' else s
  | [] => []
  end.

Definition rstrip (s : str) : str := rev (lstrip (rev s)).

Definition strip (s : str) : str := rstrip (lstrip s).

(** [s.lower()].  The scripts only ever compare a lower-cased string with
    ASCII literals.  The code points whose lower-case form is ASCII are the
    ASCII characters themselves and KELVIN SIGN (U+212A, lowered to [k]);
    every other code point lowers to something that is not ASCII and is left
    as it is here, which changes no such comparison. *)
Definition lower_char (c : char) : char :=
  (if (65 <=? c) && (c <=? 90) then c + 32
   else if c =? 8490 then 107
   else c)%N.

Definition lower (s : str) : str := map lower_char s.

(** [s.rfind(c)] for a one-character [c]: the last index of [c], or -1. *)
Fixpoint rfind_from (c : char) (i : Z) (found : Z) (s : str) : Z :=
  match s with
  | [] => found
  | x :: s' => rfind_from c (i + 1) (if (x =? c)%N then i else found) s'
  end.

Definition rfind (c : char) (s : str) : Z := rfind_from c 0 (-1) s.

Definition HASH : char := 35%N.
Definition SLASH : char := 47%N.
Definition DOT : char := 46%N.
Definition NEWLINE : char := 10%N.

(** [os.path.basename] (posixpath). *)
Definition basename (p : str) : str := slice_from (rfind SLASH p + 1) p.

(** [os.path.splitext(p)[1]] (posixpath, through [genericpath._splitext]):
    the extension starts at the last dot of the last path component, unless
    only dots precede it there. *)
Definition splitext_ext (p : str) : str :=
  let sepIndex := rfind SLASH p in
  let dotIndex := rfind DOT p in
  if sepIndex <? dotIndex then
    let before := firstn (Z.to_nat (dotIndex - (sepIndex + 1)))
                         (slice_from (sepIndex + 1) p) in
    if existsb (fun c => negb (c =? DOT)%N) before
    then slice_from dotIndex p
    else []
  else [].

(** Comparison of two strings by code points, as [sorted] uses it. *)
Fixpoint str_leb (a b : str) : bool :=
  match a, b with
  | [], _ => true
  | _ :: _, [] => false
  | x :: a', y :: b' =>
      if (x <? y)%N then true
      else if (y <? x)%N then false
      else str_leb a' b'
  end.

Fixpoint insert_sorted (x : str) (l : list str) : list str :=
  match l with
  | [] => [x]
  | y :: l' => if str_leb x y then x :: l else y :: insert_sorted x l'
  end.

(** [sorted(paths)]: equal strings cannot be told apart, so any sorting
    algorithm gives Python's result. *)
Definition sorted (l : list str) : list str := fold_right insert_sorted [] l.

(** [s.replace(old, new)] for a one-character [old] and a one-character
    [new]. *)
Definition replace_char (old new : char) (s : str) : str :=
  map (fun c => if (c =? old)%N then new else c) s.

(** [str(n)] of an integer: its decimal digits, after a minus sign when it
    is negative. *)
Definition str_of_int (n : Z) : str :=
  lit (NilZero.string_of_int (Z.to_int n)).

(** [s.endswith(suffix)]. *)
Definition endswith (suffix s : str) : bool :=
  startswith (rev suffix) (rev s).

(** [os.path.join(a, b)] (posixpath). *)
Definition path_join (a b : str) : str :=
  if startswith [SLASH] b then b
  else match a with
       | [] => b
       | _ :: _ => if endswith [SLASH] a then a ++ b else a ++ [SLASH] ++ b
       end.

End Py.

Import Py.

(** ** Regular expressions

    The patterns of the scripts are sequences of the atoms below, matched by
    backtracking in Python's order of preference; none of them matches the
    empty string. *)

Module Re.

Inductive atom : Type :=
| Chr (c : char)                 (* a literal character *)
| ChrI (c : char)                (* a lower-case ASCII letter under [(?i)] *)
| Dot                            (* [.]: any character but a newline *)
| LazyDots                       (* [.*?] *)
| AtLeast (n : nat) (c : char).  (* [c{n,}], greedy *)

Definition pattern := list atom.

(** What a lower-case ASCII letter [p] of a pattern matches under
    [re.IGNORECASE] on a [str]: its two cases and, for [i], [k] and [s], the
    letters whose case mapping meets theirs (U+0130 and U+0131, U+212A,
    U+017F). *)
Definition ignorecase_eqb (p x : char) : bool :=
  ((x =? p) || (x =? p - 32) ||
   (p =? 105) && ((x =? 304) || (x =? 305)) ||
   (p =? 107) && (x =? 8490) ||
   (p =? 115) && (x =? 383))%N.

Definition option_succ (r : option nat) : option nat := option_map S r.

(** One character against a one-character atom. *)
Definition eat (ok : char -> bool) (k : str -> option nat) (s : str) : option nat :=
  match s with
  | x :: s' => if ok x then option_succ (k s') else None
  | [] => None
  end.

Definition not_newline (x : char) : bool := negb (x =? NEWLINE)%N.

(** [.*?] followed by [k]: the shortest stretch first. *)
Fixpoint lazy_dots (k : str -> option nat) (s : str) : option nat :=
  match k s with
  | Some n => Some n
  | None =>
      match s with
      | x :: s' => if not_newline x then option_succ (lazy_dots k s') else None
      | [] => None
      end
  end.

(** [c{n,}] followed by [k]: the longest run first; [taken] characters of
    the run are already consumed. *)
Fixpoint at_least (n : nat) (c : char) (k : str -> option nat)
         (taken : nat) (s : str) : option nat :=
  let stop := if (n <=? taken)%nat then k s else None in
  match s with
  | x :: s' =>
      if (x =? c)%N then
        match at_least n c k (S taken) s' with
        | Some r => Some (S r)
        | None => stop
        end
      else stop
  | [] => stop
  end.

(** The length of the match of [p] at the start of [s], if there is one. *)
Fixpoint match_here (p : pattern) : str -> option nat :=
  match p with
  | [] => fun _ => Some O
  | a :: p' =>
      let k := match_here p' in
      match a with
      | Chr c => eat (N.eqb c) k
      | ChrI c => eat (ignorecase_eqb c) k
      | Dot => eat not_newline k
      | LazyDots => lazy_dots k
      | AtLeast n c => at_least n c k O
      end
  end.

(** [p1|p2|...] at the start of [s]: the first alternative that matches. *)
Fixpoint match_alt (alts : list pattern) (s : str) : option nat :=
  match alts with
  | [] => None
  | p :: alts' =>
      match match_here p s with
      | Some n => Some n
      | None => match_alt alts' s
      end
  end.

(** [bool(re.search(alts, s))]. *)
Fixpoint search (alts : list pattern) (s : str) : bool :=
  match match_alt alts s with
  | Some _ => true
  | None => match s with
            | [] => false
            | _ :: s' => search alts s'
            end
  end.

(** [len(re.findall(p, s))]: the matches from left to right, without
    overlap; [skip] characters of the last match are still to be passed. *)
Fixpoint findall_from (p : pattern) (skip : nat) (s : str) : Z :=
  match s with
  | [] => 0
  | _ :: s' =>
      match skip with
      | S k => findall_from p k s'
      | O => match match_here p s with
             | Some (S n) => 1 + findall_from p n s'
             | _ => findall_from p O s'
             end
      end
  end.

Definition findall_len (p : pattern) (s : str) : Z := findall_from p O s.

(** [re.sub(p, repl, s)]. *)
Fixpoint sub_from (p : pattern) (repl : str) (skip : nat) (s : str) : str :=
  match s with
  | [] => []
  | x :: s' =>
      match skip with
      | S k => sub_from p repl k s'
      | O => match match_here p s with
             | Some (S n) => repl ++ sub_from p repl n s'
             | _ => x :: sub_from p repl O s'
             end
      end
  end.

Definition sub (p : pattern) (repl : str) (s : str) : str := sub_from p repl O s.

Definition chars (s : str) : pattern := map Chr s.
Definition chars_i (s : str) : pattern := map ChrI s.

End Re.

(** ** The code-hosting service

    [requests.get(url, headers=headers)] is a lookup in the state of the
    network.  The body of the tree end point is kept decoded: it is what
    [resp.json().get("tree", [])] returns, one [item] per dictionary, with
    its ["path"] and ["type"] entries; the body of the raw-content end point
    is [resp.text]. *)

Record item : Type := { path : str; type : str }.

Definition headers := list (str * str).

Record Response (A : Type) : Type := { status_code : Z; body : A }.
Arguments status_code {A} _.
Arguments body {A} _.

Record Network : Type := {
  get_tree : str -> headers -> Response (list item);
  get_raw : str -> headers -> Response str
}.

Definition BLOB : str := lit "blob".
Definition TREE : str := lit "tree".

(** * scripts/prepare_data.py *)

Module PrepareData.

Definition GITHUB_API : str := lit "https://api.github.com".

Definition CODE_EXTENSIONS : list str :=
  [lit ".py"; lit ".js"; lit ".ts"; lit ".jsx"; lit ".tsx"; lit ".java";
   lit ".go"; lit ".rs"; lit ".cpp"; lit ".c"; lit ".h"; lit ".rb";
   lit ".php"; lit ".swift"; lit ".kt"; lit ".scala"; lit ".cs"; lit ".r";
   lit ".jl"; lit ".lua"; lit ".sh"; lit ".bash"; lit ".zsh"].

Definition IMPORTANT_FILES : list str :=
  [lit "setup.py"; lit "setup.cfg"; lit "pyproject.toml"; lit "package.json";
   lit "cargo.toml"; lit "go.mod"; lit "build.gradle"; lit "pom.xml";
   lit "makefile"; lit "dockerfile"; lit "docker-compose.yml";
   lit "requirements.txt"; lit "gemfile"; lit ".env.example"].

Definition MAX_FILE_CHARS : Z := 1500.
Definition MAX_TOTAL_CODE_CHARS : Z := 6000.
Definition MAX_README_CHARS : Z := 4000.

Definition TRUNCATED : str := lit "... (truncated)".

Definition get_headers (token : option str) : headers :=
  let headers := [(lit "Accept", lit "application/vnd.github.v3+json")] in
  match token with
  | Some (_ :: _ as t) => headers ++ [(lit "Authorization", lit "token " ++ t)]
  | _ => headers
  end.

(** The test of the generator expression of [build_file_tree_string]. *)
Definition listed (it : item) : bool :=
  mem (type it) [BLOB; TREE]
  && negb (existsb (startswith (lit ".")) (split SLASH (path it)))
  && negb (contains (lit "node_modules") (path it))
  && negb (contains (lit "__pycache__") (path it))
  && negb (contains (lit ".egg-info") (path it)).

(** The sorted paths, before the cut. *)
Definition listed_paths (tree : list item) : list str :=
  sorted (map path (filter listed tree)).

Definition build_file_tree_string (tree : list item) (max_entries : Z) : str :=
  let paths := listed_paths tree in
  let paths :=
    if max_entries <? len paths
    then slice_to max_entries paths ++ [TRUNCATED]
    else paths in
  join [NEWLINE] paths.

Definition is_important (it : item) : bool :=
  str_eqb (type it) BLOB && mem (lower (basename (path it))) IMPORTANT_FILES.

Definition is_code_file (it : item) : bool :=
  if negb (str_eqb (type it) BLOB) then false
  else if negb (mem (lower (splitext_ext (path it))) CODE_EXTENSIONS) then false
  else count (lit "/") (path it) <=? 2.

(** The two [for item in tree] loops, appending to [selected]. *)
Definition important_pass (tree : list item) (selected : list str) : list str :=
  fold_left (fun selected it =>
               if is_important it then selected ++ [path it] else selected)
            tree selected.

Definition code_pass (tree : list item) (selected : list str) : list str :=
  fold_left (fun selected it =>
               if is_code_file it then selected ++ [path it] else selected)
            tree selected.

(** The deduplication loop: [seen] is the set, [deduped] the list. *)
Fixpoint dedup_loop (selected seen deduped : list str) : list str :=
  match selected with
  | [] => deduped
  | p :: rest =>
      if negb (mem p seen)
      then dedup_loop rest (p :: seen) (deduped ++ [p])
      else dedup_loop rest seen deduped
  end.

Definition select_key_files (tree : list item) : list str :=
  let selected := important_pass tree [] in
  let selected := code_pass tree selected in
  let deduped := dedup_loop selected [] [] in
  slice_to 10 deduped.

(** [f"--- {path} ---\n{content}"]. *)
Definition block (p content : str) : str :=
  lit "--- " ++ p ++ lit " ---" ++ [NEWLINE] ++ content.

(** [re.sub] patterns of [clean_readme]. *)
Definition LINKED_BADGE : Re.pattern :=
  Re.chars (lit "[![") ++ [Re.LazyDots] ++ Re.chars (lit "](") ++
  [Re.LazyDots] ++ Re.chars (lit ")](") ++ [Re.LazyDots] ++ Re.chars (lit ")").

Definition IMAGE : Re.pattern :=
  Re.chars (lit "![") ++ [Re.LazyDots] ++ Re.chars (lit "](") ++
  [Re.LazyDots] ++ Re.chars (lit ")").

Definition NEWLINES3 : Re.pattern := [Re.AtLeast 3 NEWLINE].

Definition clean_readme (readme : str) : str :=
  let readme := Re.sub LINKED_BADGE [] readme in
  let readme := Re.sub IMAGE [] readme in
  let readme := Re.sub NEWLINES3 [NEWLINE; NEWLINE] readme in
  strip readme.

Definition is_quality_readme (readme : str) : bool :=
  if len readme <? 200 then false
  else if MAX_README_CHARS <? len readme then false
  else if count (lit "#") readme <? 2 then false
  else
    let words := split_ws readme in
    if len words <? 50 then false
    else true.

Definition README_NAMES : list str :=
  [lit "readme.md"; lit "readme.rst"; lit "readme.txt"; lit "readme"].

(** [repo_info]: one item of the search result, and the example built from
    it. *)
Record repo_info : Type := {
  owner_login : str;
  name : str;
  full_name : str;
  stargazers_count : option Z;
  language_of : option str
}.

Record example : Type := {
  repo_name : str;
  file_tree : str;
  code_snippets : str;
  readme_content : str;
  stars : Z;
  language : str
}.

(** [f"{GITHUB_API}/repos/{owner}/{repo}/git/trees/HEAD?recursive=1"]. *)
Definition tree_url (owner repo : str) : str :=
  GITHUB_API ++ lit "/repos/" ++ owner ++ lit "/" ++ repo
  ++ lit "/git/trees/HEAD?recursive=1".

(** [f"https://raw.githubusercontent.com/{owner}/{repo}/HEAD/{path}"]. *)
Definition raw_url (owner repo p : str) : str :=
  lit "https://raw.githubusercontent.com/" ++ owner ++ lit "/" ++ repo
  ++ lit "/HEAD/" ++ p.

Section Net.

Variable net : Network.

Definition get_repo_tree (owner repo : str) (token : option str)
  : option (list item) :=
  let headers := get_headers token in
  let url := tree_url owner repo in
  let resp := get_tree net url headers in
  if negb (status_code resp =? 200) then None
  else Some (body resp).

Definition get_file_content (owner repo p : str) (token : option str)
  : option str :=
  let headers := get_headers token in
  let url := raw_url owner repo p in
  let resp := get_raw net url headers in
  if negb (status_code resp =? 200) then None
  else Some (body resp).

(** The [for path in file_paths] loop of [build_code_snippets], with its
    two local variables as state. *)
Fixpoint snippets_loop (owner repo : str) (token : option str)
         (file_paths : list str) (snippets : list str) (total_chars : Z)
  : list str * Z :=
  match file_paths with
  | [] => (snippets, total_chars)
  | p :: rest =>
      if MAX_TOTAL_CODE_CHARS <=? total_chars then (snippets, total_chars)
      else
        match get_file_content owner repo p token with
        | None => snippets_loop owner repo token rest snippets total_chars
        | Some content =>
            let content := slice_to MAX_FILE_CHARS content in
            snippets_loop owner repo token rest
                          (snippets ++ [block p content])
                          (total_chars + len content)
        end
  end.

Definition build_code_snippets (owner repo : str) (file_paths : list str)
           (token : option str) : str :=
  join [NEWLINE; NEWLINE]
       (fst (snippets_loop owner repo token file_paths [] 0)).

(** The README search of [process_repo]: the first matching item. *)
Definition is_readme (it : item) : bool :=
  str_eqb (type it) BLOB && mem (lower (path it)) README_NAMES.

Definition find_readme (tree : list item) : option str :=
  option_map path (find is_readme tree).

Definition process_repo (info : repo_info) (token : option str)
  : option example :=
  let owner := owner_login info in
  let repo := name info in
  match get_repo_tree owner repo token with
  | None => None
  | Some tree =>
      match find_readme tree with
      | None => None
      | Some readme_path =>
          match get_file_content owner repo readme_path token with
          | None => None
          | Some readme =>
              let readme := clean_readme readme in
              if negb (is_quality_readme readme) then None
              else
                let ft := build_file_tree_string tree 80 in
                let key_files := select_key_files tree in
                let cs := build_code_snippets owner repo key_files token in
                match cs with
                | [] => None
                | _ :: _ =>
                    Some {| repo_name := full_name info;
                            file_tree := ft;
                            code_snippets := cs;
                            readme_content := readme;
                            stars := match stargazers_count info with
                                     | Some n => n
                                     | None => 0
                                     end;
                            language := match language_of info with
                                        | Some l => l
                                        | None => lit "unknown"
                                        end |}
                end
          end
      end
  end.

(** The [for repo_info in repos] loop of [collect_dataset]. *)
Fixpoint collect_page (repos : list repo_info) (token : option str)
         (examples : list example) (collected : Z) : list example * Z :=
  match repos with
  | [] => (examples, collected)
  | info :: rest =>
      match process_repo info token with
      | Some ex => collect_page rest token (examples ++ [ex]) (collected + 1)
      | None => collect_page rest token examples collected
      end
  end.

End Net.

End PrepareData.

(** * scripts/inference.py *)

Module Inference.

Definition CODE_EXTENSIONS : list str :=
  [lit ".py"; lit ".js"; lit ".ts"; lit ".jsx"; lit ".tsx"; lit ".java";
   lit ".go"; lit ".rs"; lit ".cpp"; lit ".c"; lit ".h"; lit ".rb";
   lit ".php"; lit ".swift"; lit ".kt"; lit ".scala"; lit ".cs"; lit ".r";
   lit ".jl"; lit ".lua"; lit ".sh"; lit ".bash"; lit ".zsh"].

Definition IMPORTANT_FILES : list str :=
  [lit "setup.py"; lit "setup.cfg"; lit "pyproject.toml"; lit "package.json";
   lit "cargo.toml"; lit "go.mod"; lit "build.gradle"; lit "pom.xml";
   lit "makefile"; lit "dockerfile"; lit "docker-compose.yml";
   lit "requirements.txt"; lit "gemfile"; lit ".env.example"].

Definition IGNORE_DIRS : list str :=
  [lit ".git"; lit "node_modules"; lit "__pycache__"; lit ".venv"; lit "venv";
   lit ".eggs"; lit "*.egg-info"; lit "dist"; lit "build"; lit ".tox";
   lit ".mypy_cache"; lit ".pytest_cache"; lit ".next"; lit "target";
   lit "vendor"].

Definition MAX_FILE_CHARS : Z := 1500.
Definition MAX_TOTAL_CODE_CHARS : Z := 6000.

Definition TRUNCATED_LINE : str := NEWLINE :: lit "... (truncated)".

Definition block (p content : str) : str :=
  lit "--- " ++ p ++ lit " ---" ++ [NEWLINE] ++ content.

(** [file_tree] of both scans, from the sorted paths. *)
Definition file_tree_of (paths : list str) : str :=
  if 80 <? len paths
  then join [NEWLINE] (slice_to 80 paths) ++ TRUNCATED_LINE
  else join [NEWLINE] paths.

(** The budget loop of both scans; [read] is the attempt to get the text of
    one key file: [None] when the attempt fails. *)
Fixpoint snippets_loop (read : str -> option str) (key_files : list str)
         (snippets : list str) (total_chars : Z) : list str * Z :=
  match key_files with
  | [] => (snippets, total_chars)
  | f :: rest =>
      if MAX_TOTAL_CODE_CHARS <=? total_chars then (snippets, total_chars)
      else
        match read f with
        | Some text =>
            let content := slice_to MAX_FILE_CHARS text in
            snippets_loop read rest (snippets ++ [block f content])
                          (total_chars + len content)
        | None => snippets_loop read rest snippets total_chars
        end
  end.

(** ** scan_local_repo *)

(** A directory as [os.walk] sees it: the names of its files and its
    sub-directories, in the order of the listing. *)
#[local] Set Warnings "-register-all".
Inductive node : Type :=
| File (name : str)
| Dir (name : str) (children : list node).

(** [read_text f] is [(repo_path / f).read_text(errors="replace")], [None]
    when it raises [OSError]. *)
Record LocalRepo : Type := {
  repo_dir_name : str;
  top : list node;
  read_text : str -> option str
}.

Definition kept_dir (d : str) : bool :=
  negb (mem d IGNORE_DIRS) && negb (startswith (lit ".") d).

(** The [os.walk] loop below a sub-directory [e], skipped when its name is
    filtered out of [dirs]; [rel] is the path of the walked directory
    relative to the repository, closed by [/] unless it is the root. *)
Definition files_of (rel : str) (entries : list node) : list str :=
  flat_map (fun e => match e with
                     | File f => [rel ++ f]
                     | Dir _ _ => []
                     end) entries.

Fixpoint walk_dir (rel : str) (e : node) {struct e} : list str :=
  match e with
  | File _ => []
  | Dir d sub =>
      if kept_dir d
      then files_of (rel ++ d ++ [SLASH]) sub
           ++ flat_map (walk_dir (rel ++ d ++ [SLASH])) sub
      else []
  end.

(** The files of a directory, then the walk of its sub-directories. *)
Definition walk (rel : str) (entries : list node) : list str :=
  files_of rel entries ++ flat_map (walk_dir rel) entries.

Definition local_important (f : str) : bool :=
  mem (lower (basename f)) IMPORTANT_FILES.

Definition local_code_file (f : str) : bool :=
  mem (lower (splitext_ext f)) CODE_EXTENSIONS && (count (lit "/") f <=? 2).

Definition local_key_files (all_files : list str) : list str :=
  let key_files :=
    fold_left (fun key_files f =>
                 if local_important f then key_files ++ [f] else key_files)
              all_files [] in
  let key_files :=
    fold_left (fun key_files f =>
                 if local_code_file f
                 then if negb (mem f key_files) then key_files ++ [f]
                      else key_files
                 else key_files)
              all_files key_files in
  slice_to 10 key_files.

Definition local_snippets (read : str -> option str) (key_files : list str)
  : str :=
  join [NEWLINE; NEWLINE] (fst (snippets_loop read key_files [] 0)).

(** The body of [scan_local_repo] after the walk. *)
Definition scan_files (repo_name : str) (read : str -> option str)
           (all_files : list str) : str * str * str :=
  let all_files := sorted all_files in
  let file_tree := file_tree_of all_files in
  let key_files := local_key_files all_files in
  let code_snippets := local_snippets read key_files in
  (repo_name, file_tree, code_snippets).

Definition scan_local_repo (repo : LocalRepo) : str * str * str :=
  scan_files (repo_dir_name repo) (read_text repo) (walk [] (top repo)).

(** ** scan_github_repo *)

Inductive exn : Type :=
| ValueError
| HTTPError (status : Z).

Inductive outcome (A : Type) : Type :=
| Return (a : A)
| Raise (e : exn).
Arguments Return {A} a.
Arguments Raise {A} e.

(** [resp.raise_for_status()]: the status codes it raises on. *)
Definition is_error_status (status : Z) : bool :=
  (400 <=? status) && (status <? 600).

Definition remote_headers (token : option str) : headers :=
  let headers := [(lit "Accept", lit "application/vnd.github.v3+json")] in
  match token with
  | Some (_ :: _ as t) => headers ++ [(lit "Authorization", lit "token " ++ t)]
  | _ => headers
  end.

Definition remote_listed (it : item) : bool :=
  mem (type it) [BLOB; TREE]
  && negb (existsb (startswith (lit ".")) (split SLASH (path it)))
  && negb (contains (lit "node_modules") (path it))
  && negb (contains (lit "__pycache__") (path it)).

Definition remote_important (it : item) : bool :=
  str_eqb (type it) BLOB && mem (lower (basename (path it))) IMPORTANT_FILES.

Definition remote_code_file (it : item) : bool :=
  if negb (str_eqb (type it) BLOB) then false
  else mem (lower (splitext_ext (path it))) CODE_EXTENSIONS
       && (count (lit "/") (path it) <=? 2).

Definition remote_key_files (tree : list item) : list str :=
  let key_files :=
    fold_left (fun key_files it =>
                 if remote_important it then key_files ++ [path it]
                 else key_files)
              tree [] in
  let key_files :=
    fold_left (fun key_files it =>
                 if remote_code_file it
                 then if negb (mem (path it) key_files)
                      then key_files ++ [path it]
                      else key_files
                 else key_files)
              tree key_files in
  slice_to 10 key_files.

Definition remote_file_tree (tree : list item) : str :=
  file_tree_of (sorted (map path (filter remote_listed tree))).

(** [f"https://api.github.com/repos/{owner}/{repo}/git/trees/HEAD?recursive=1"]. *)
Definition tree_url (owner repo : str) : str :=
  lit "https://api.github.com/repos/" ++ owner ++ lit "/" ++ repo
  ++ lit "/git/trees/HEAD?recursive=1".

Section Net.

Variable net : Network.

(** The download of one key file: the text on status 200. *)
Definition download (owner repo : str) (hdrs : headers) (p : str)
  : option str :=
  let raw_url := lit "https://raw.githubusercontent.com/" ++ owner ++ lit "/"
                 ++ repo ++ lit "/HEAD/" ++ p in
  let resp := get_raw net raw_url hdrs in
  if status_code resp =? 200 then Some (body resp) else None.

Definition remote_snippets (owner repo : str) (hdrs : headers)
           (key_files : list str) : str :=
  join [NEWLINE; NEWLINE]
       (fst (snippets_loop (download owner repo hdrs) key_files [] 0)).

Definition scan_github_repo (owner_repo : str) (token : option str)
  : outcome (str * str * str) :=
  let hdrs := remote_headers token in
  match split SLASH owner_repo with
  | [owner; repo] =>
      let url := tree_url owner repo in
      let resp := get_tree net url hdrs in
      if is_error_status (status_code resp)
      then Raise (HTTPError (status_code resp))
      else
        let tree := body resp in
        let file_tree := remote_file_tree tree in
        let key_files := remote_key_files tree in
        let code_snippets := remote_snippets owner repo hdrs key_files in
        Return (owner_repo, file_tree, code_snippets)
  | _ => Raise ValueError
  end.

End Net.

Definition build_prompt (repo_name file_tree code_snippets : str) : str :=
  lit "<|system|>" ++ [NEWLINE]
  ++ lit "You are a technical writer that generates comprehensive README.md files "
  ++ lit "for code repositories. Given the repository structure and code contents, "
  ++ lit "write a clear, well-structured README.</s>" ++ [NEWLINE]
  ++ lit "<|user|>" ++ [NEWLINE]
  ++ lit "Generate a README.md for the following repository:"
  ++ [NEWLINE; NEWLINE]
  ++ lit "Repository name: " ++ repo_name ++ [NEWLINE; NEWLINE]
  ++ lit "File structure:" ++ [NEWLINE] ++ file_tree ++ [NEWLINE; NEWLINE]
  ++ lit "Key files:" ++ [NEWLINE] ++ code_snippets ++ lit "</s>" ++ [NEWLINE]
  ++ lit "<|assistant|>" ++ [NEWLINE].

(** The names of the two files of [compare_outputs]: [safe_name] is
    [repo_name.replace("/", "_")]. *)
Definition safe_name (repo_name : str) : str :=
  replace_char SLASH 95%N repo_name.

Definition json_path (repo_name output_dir : str) : str :=
  path_join output_dir (safe_name repo_name ++ lit "_comparison.json").

Definition md_path (repo_name output_dir : str) : str :=
  path_join output_dir (safe_name repo_name ++ lit "_comparison.md").

End Inference.

(** * scripts/evaluate.py *)

Module Evaluate.

Record score : Type := {
  num_headings : Z;
  num_code_blocks : Z;
  has_install_section : bool;
  has_usage_section : bool;
  has_description : bool;
  num_bullet_points : Z;
  total_length : Z;
  total_lines : Z
}.

Definition FENCE : Re.pattern := Re.chars (lit "```").

(** [(?i)(install|setup|getting.started)]. *)
Definition INSTALL : list Re.pattern :=
  [Re.chars_i (lit "install");
   Re.chars_i (lit "setup");
   Re.chars_i (lit "getting") ++ [Re.Dot] ++ Re.chars_i (lit "started")].

(** [(?i)(usage|how.to.use|example|quick.start)]. *)
Definition USAGE : list Re.pattern :=
  [Re.chars_i (lit "usage");
   Re.chars_i (lit "how") ++ [Re.Dot] ++ Re.chars_i (lit "to") ++ [Re.Dot]
     ++ Re.chars_i (lit "use");
   Re.chars_i (lit "example");
   Re.chars_i (lit "quick") ++ [Re.Dot] ++ Re.chars_i (lit "start")].

(** The bullet character U+2022. *)
Definition BULLET : str := [8226%N].

Definition is_heading (l : str) : bool := startswith (lit "#") (strip l).

Definition is_bullet (l : str) : bool :=
  existsb (fun prefix => startswith prefix (strip l))
          [lit "-"; lit "*"; BULLET].

Definition structural_score (text : str) : score :=
  let lines := split NEWLINE text in
  let headings := filter is_heading lines in
  let code_blocks := Re.findall_len FENCE text / 2 in
  let has_install := Re.search INSTALL text in
  let has_usage := Re.search USAGE text in
  let has_description := 100 <? len text in
  let bullet_points := len (filter is_bullet lines) in
  {| num_headings := len headings;
     num_code_blocks := code_blocks;
     has_install_section := has_install;
     has_usage_section := has_usage;
     has_description := has_description;
     num_bullet_points := bullet_points;
     total_length := len text;
     total_lines := len lines |}.

(** [build_prompt(example)], on the fields of one record of the dataset. *)
Definition build_prompt (ex : PrepareData.example) : str :=
  lit "<|system|>" ++ [NEWLINE]
  ++ lit "You are a technical writer that generates comprehensive README.md files "
  ++ lit "for code repositories. Given the repository structure and code contents, "
  ++ lit "write a clear, well-structured README.</s>" ++ [NEWLINE]
  ++ lit "<|user|>" ++ [NEWLINE]
  ++ lit "Generate a README.md for the following repository:"
  ++ [NEWLINE; NEWLINE]
  ++ lit "Repository name: " ++ PrepareData.repo_name ex ++ [NEWLINE; NEWLINE]
  ++ lit "File structure:" ++ [NEWLINE] ++ PrepareData.file_tree ex
  ++ [NEWLINE; NEWLINE]
  ++ lit "Key files:" ++ [NEWLINE] ++ PrepareData.code_snippets ex
  ++ lit "</s>" ++ [NEWLINE]
  ++ lit "<|assistant|>" ++ [NEWLINE].

End Evaluate.

(** * app.py *)

Module App.

Definition build_prompt (repo_name file_tree code_snippets : str) : str :=
  lit "<|system|>" ++ [NEWLINE]
  ++ lit "You are a technical writer that generates comprehensive README.md files "
  ++ lit "for code repositories. Given the repository structure and code contents, "
  ++ lit "write a clear, well-structured README.</s>" ++ [NEWLINE]
  ++ lit "<|user|>" ++ [NEWLINE]
  ++ lit "Generate a README.md for the following repository:"
  ++ [NEWLINE; NEWLINE]
  ++ lit "Repository name: " ++ repo_name ++ [NEWLINE; NEWLINE]
  ++ lit "File structure:" ++ [NEWLINE] ++ file_tree ++ [NEWLINE; NEWLINE]
  ++ lit "Key files:" ++ [NEWLINE] ++ code_snippets ++ lit "</s>" ++ [NEWLINE]
  ++ lit "<|assistant|>" ++ [NEWLINE].

End App.

(** * scripts/prepare_data.py: the search and the collection loop *)

Module Collect.

(** The [params] of the search request. *)
Record search_params : Type := {
  q : str;
  sort : str;
  order : str;
  per_page : Z;
  page : Z
}.

(** One answer of the search end point to [requests.get(url, headers=...,
    params=...)]; its body is kept decoded, as what
    [resp.json().get("items", [])] returns. *)
Definition answer : Type :=
  str -> headers -> search_params -> Response (list PrepareData.repo_info).

Definition search_repos (server : answer) (token : option str)
           (language : str) (min_stars max_stars n_per_page n_page : Z)
  : Inference.outcome (list PrepareData.repo_info) :=
  let headers := PrepareData.get_headers token in
  let query := lit "language:" ++ language ++ lit " stars:"
               ++ str_of_int min_stars ++ lit ".." ++ str_of_int max_stars
               ++ lit " has:readme" in
  let params := {| q := query; sort := lit "stars"; order := lit "desc";
                   per_page := n_per_page; page := n_page |} in
  let resp := server (PrepareData.GITHUB_API ++ lit "/search/repositories")
                     headers params in
  if Inference.is_error_status (status_code resp)
  then Inference.Raise (Inference.HTTPError (status_code resp))
  else Inference.Return (body resp).

Definition LANGUAGES : list str :=
  [lit "Python"; lit "JavaScript"; lit "TypeScript"; lit "Go"; lit "Rust";
   lit "Java"; lit "C++"; lit "Ruby"; lit "PHP"; lit "Swift"].

(** The variables of the [while] loop of one language. *)
Record progress : Type := {
  examples : list PrepareData.example;
  collected : Z;
  current_page : Z
}.

(** How far a loop gets on the answers the service gives, one answer for
    each search request in turn: to its end, to an exception that leaves
    it, or past the last answer, still asking, with the variables it has
    then. *)
Inductive run (A B : Type) : Type :=
| Finished (a : A)
| Failed (e : Inference.exn)
| Asking (b : B).
Arguments Finished {A B} a.
Arguments Failed {A B} e.
Arguments Asking {A B} b.

(** A dictionary with string keys, in the order of insertion. *)
Definition dict : Type := list (str * Z).

Fixpoint dict_get (d : dict) (k : str) (default : Z) : Z :=
  match d with
  | [] => default
  | (k', v) :: d' => if str_eqb k' k then v else dict_get d' k default
  end.

Fixpoint dict_set (d : dict) (k : str) (v : Z) : dict :=
  match d with
  | [] => [(k, v)]
  | (k', v') :: d' =>
      if str_eqb k' k then (k', v) :: d' else (k', v') :: dict_set d' k v
  end.

(** [stats["by_language"]] after the loop over the examples. *)
Definition by_language (exs : list PrepareData.example) : dict :=
  fold_left (fun d ex =>
               let lang := PrepareData.language ex in
               dict_set d lang (dict_get d lang 0 + 1))
            exs [].

Section Net.

Variable net : Network.

(** The [while collected < repos_per_language] loop. *)
Fixpoint language_loop (answers : list answer) (token : option str)
         (lang : str) (repos_per_language : Z) (st : progress)
         {struct answers} : run (list answer * progress) progress :=
  if collected st <? repos_per_language then
    match answers with
    | [] => Asking st
    | server :: rest =>
        match search_repos server token lang 10 5000
                (Z.min 100 (repos_per_language - collected st))
                (current_page st) with
        | Inference.Raise (Inference.HTTPError status) =>
            if status =? 403
            then language_loop rest token lang repos_per_language st
            else Failed (Inference.HTTPError status)
        | Inference.Raise e => Failed e
        | Inference.Return [] => Finished (rest, st)
        | Inference.Return repos =>
            let (exs, n) := PrepareData.collect_page
                              net repos token (examples st) (collected st) in
            language_loop rest token lang repos_per_language
                          {| examples := exs; collected := n;
                             current_page := current_page st + 1 |}
        end
    end
  else Finished (answers, st).

(** The [for lang in languages] loop. *)
Fixpoint languages_loop (languages : list str) (answers : list answer)
         (token : option str) (repos_per_language : Z)
         (exs : list PrepareData.example)
  : run (list answer * list PrepareData.example)
        (list PrepareData.example) :=
  match languages with
  | [] => Finished (answers, exs)
  | lang :: more =>
      match language_loop answers token lang repos_per_language
                          {| examples := exs; collected := 0;
                             current_page := 1 |} with
      | Finished (rest, st) =>
          languages_loop more rest token repos_per_language (examples st)
      | Failed e => Failed e
      | Asking st => Asking (examples st)
      end
  end.

(** [collect_dataset], up to the examples and the statistics it writes. *)
Definition collect_dataset (answers : list answer) (token : option str)
           (num_repos : Z)
  : run (list PrepareData.example * (Z * dict))
        (list PrepareData.example) :=
  let repos_per_language := num_repos / len LANGUAGES in
  match languages_loop LANGUAGES answers token repos_per_language [] with
  | Finished (_, exs) => Finished (exs, (len exs, by_language exs))
  | Failed e => Failed e
  | Asking exs => Asking exs
  end.

End Net.

End Collect.

(** * Quantities and inputs the properties speak of *)

(** The cumulative size of the files of a selection that can be read, before
    and after the cut of each file to its first 1500 characters. *)
Definition untruncated_size (read : str -> option str) (paths : list str) : Z :=
  fold_right (fun p acc => match read p with
                           | Some text => len text + acc
                           | None => acc
                           end) 0 paths.

Definition truncated_size (read : str -> option str) (paths : list str) : Z :=
  fold_right (fun p acc => match read p with
                           | Some text => len (slice_to 1500 text) + acc
                           | None => acc
                           end) 0 paths.

(** A file of [n] letters [a], and a service that answers every request with
    status 200, an empty tree and that file. *)
Definition letters (n : Z) : str := repeat 97%N (Z.to_nat n).

Definition same_file_net (n : Z) : Network :=
  {| get_tree := fun _ _ => {| status_code := 200; body := [] |};
     get_raw := fun _ _ => {| status_code := 200; body := letters n |} |}.

Definition four_files : list str :=
  [lit "a.py"; lit "b.py"; lit "c.py"; lit "d.py"].

(** A service whose tree end point answers with the given status and an
    empty tree. *)
Definition tree_status_net (status : Z) : Network :=
  {| get_tree := fun _ _ => {| status_code := status; body := [] |};
     get_raw := fun _ _ => {| status_code := 200; body := letters 10 |} |}.

Definition blob (p : str) : item := {| path := p; type := BLOB |}.

(** [n] copies of a text, one after the other. *)
Fixpoint copies (n : nat) (s : str) : str :=
  match n with
  | O => []
  | S n' => s ++ copies n' s
  end.

(** A README of 70 headings of one word each, 210 characters before and 209
    after normalisation, and a repository that holds it beside one script;
    every file of the repository has that text. *)
Definition README_TEXT : str := copies 70 (lit "#a ").

Definition readme_net : Network :=
  {| get_tree := fun _ _ =>
       {| status_code := 200;
          body := [blob (lit "README.md"); blob (lit "main.py")] |};
     get_raw := fun _ _ => {| status_code := 200; body := README_TEXT |} |}.

Definition some_repo : PrepareData.repo_info :=
  {| PrepareData.owner_login := lit "o";
     PrepareData.name := lit "r";
     PrepareData.full_name := lit "o/r";
     PrepareData.stargazers_count := Some 12;
     PrepareData.language_of := None |}.

(** What every record of the dataset has to satisfy. *)
Definition well_formed (ex : PrepareData.example) : Prop :=
  PrepareData.code_snippets ex <> []
  /\ PrepareData.is_quality_readme (PrepareData.readme_content ex) = true
  /\ exists raw, PrepareData.readme_content ex = PrepareData.clean_readme raw.

(** The text of the concrete scoring scenario. *)
Definition SCENARIO : str :=
  lit "# Title" ++ [NEWLINE; NEWLINE]
  ++ lit "Some text with ```code``` fence." ++ [NEWLINE]
  ++ lit "- item one" ++ [NEWLINE] ++ lit "- item two".

(** A text of 100 two-character words [# ], 200 characters long. *)
Definition HASHES : str := copies 100 (lit "# ").

(** A tree of 81 blobs with the two-letter names [aa], [ab], ... *)
Definition two_letters (n : N) : str := [97 + n / 26; 97 + n mod 26]%N.

Definition numbered_tree : list item :=
  map (fun n => blob (two_letters (N.of_nat n))) (seq 0 81).

(** The path test shared by the listing filters: a segment that starts with
    a dot. *)
Definition dot_segment (p : str) : bool :=
  existsb (startswith (lit ".")) (split SLASH p).

(** The sorted paths of the listing of the remote scan, before the cut. *)
Definition remote_paths (tree : list item) : list str :=
  sorted (map path (filter Inference.remote_listed tree)).

Definition small_tree : list item :=
  [blob (lit "README.md"); blob (lit "main.py")].

(** Ten manifests in directories that sort before the dot, then a
    root-level [.env.example]. *)
Definition manifest_in (n : N) : item :=
  blob (lit "-" ++ [48 + n]%N ++ lit "/package.json").

Definition ENV_EXAMPLE : item := blob (lit ".env.example").

Definition crowded_tree : list item :=
  map (fun n => manifest_in (N.of_nat n)) (seq 0 10) ++ [ENV_EXAMPLE].

(** A tree with one file of packaging metadata. *)
Definition egg_tree : list item := [blob (lit "pkg.egg-info/PKG-INFO")].

(** A blob whose path has a dot segment and runs through [node_modules]. *)
Definition HIDDEN_SETUP : item := blob (lit ".cache/node_modules/setup.py").

(** One step of the second loop of the two scans: [p] is appended unless it
    is in [key_files] already. *)
Definition add_new (key_files : list str) (p : str) : list str :=
  if negb (mem p key_files) then key_files ++ [p] else key_files.

(** The three outputs of each call site on a tree: the file-tree string,
    the selection and the joined snippets.  The local scan starts from the
    list of files of the walk. *)
Definition dataset_output (net : Network) (owner repo : str)
           (token : option str) (tree : list item) : str * list str * str :=
  (PrepareData.build_file_tree_string tree 80,
   PrepareData.select_key_files tree,
   PrepareData.build_code_snippets net owner repo
                                   (PrepareData.select_key_files tree) token).

Definition remote_output (net : Network) (owner repo : str)
           (token : option str) (tree : list item) : str * list str * str :=
  (Inference.remote_file_tree tree,
   Inference.remote_key_files tree,
   Inference.remote_snippets net owner repo (Inference.remote_headers token)
                             (Inference.remote_key_files tree)).

Definition local_output (read : str -> option str) (all_files : list str)
  : str * list str * str :=
  let all_files := sorted all_files in
  (Inference.file_tree_of all_files,
   Inference.local_key_files all_files,
   Inference.local_snippets read (Inference.local_key_files all_files)).

(** The paths the two passes of the selection consider: those of the blobs
    with an important name, and those of the blobs with a code extension at
    depth 2 or less. *)
Definition important_paths (tree : list item) : list str :=
  map path (filter PrepareData.is_important tree).

Definition code_paths (tree : list item) : list str :=
  map path (filter PrepareData.is_code_file tree).

(** A tree of a manifest, two scripts, a directory and a script too deep. *)
Definition mixed_tree : list item :=
  [blob (lit "src/app/core/deep.py"); blob (lit "main.py");
   blob (lit "Makefile"); {| path := lit "lib.py"; type := TREE |};
   blob (lit "src/util.py")].

(** Whether a path can be read, and the blocks of the files of a list that
    can be read, each cut to its first 1500 characters. *)
Definition readable (read : str -> option str) (p : str) : bool :=
  match read p with
  | Some _ => true
  | None => false
  end.

Definition blocks_of (read : str -> option str) (paths : list str) : list str :=
  flat_map (fun p => match read p with
                     | Some text => [Inference.block p (slice_to 1500 text)]
                     | None => []
                     end) paths.

(** A service on which only [b.py] can be fetched. *)
Definition only_b_net : Network :=
  {| get_tree := fun _ _ => {| status_code := 200; body := [] |};
     get_raw := fun url _ =>
       if endswith (lit "/b.py") url
       then {| status_code := 200; body := letters 20 |}
       else {| status_code := 404; body := lit "Not Found" |} |}.

(** A continuation of the matcher that never reports more characters than
    the text has. *)
Definition bounded (k : str -> option nat) : Prop :=
  forall s n, k s = Some n -> (n <= length s)%nat.

(** The number of characters [c] at the start of a text. *)
Fixpoint run (c : char) (s : str) : nat :=
  match s with
  | x :: s' => if (x =? c)%N then S (run c s') else O
  | [] => O
  end.

Definition TRIPLE : str := [NEWLINE; NEWLINE; NEWLINE].
Definition BANG : char := 33%N.

(** A README with a linked badge, an image, a run of five newlines and
    blanks around it. *)
Definition BADGE_README : str :=
  lit "  # T [![b](u)](l) and ![i](u) x" ++ copies 5 [NEWLINE] ++ lit "end  ".

(** The atoms that take exactly one character, and the patterns made of
    them. *)
Definition one_char (a : Re.atom) : bool :=
  match a with
  | Re.Chr _ | Re.ChrI _ | Re.Dot => true
  | Re.LazyDots | Re.AtLeast _ _ => false
  end.

Definition simple (p : Re.pattern) : bool := forallb one_char p.

(** The examples a page of repositories gives, in the order of the page. *)
Definition new_examples (net : Network) (token : option str)
           (repos : list PrepareData.repo_info) : list PrepareData.example :=
  flat_map (fun info => match PrepareData.process_repo net info token with
                        | Some ex => [ex]
                        | None => []
                        end) repos.

(** The number of examples of a language, and the sum of the values of a
    dictionary. *)
Definition count_language (lang : str) (exs : list PrepareData.example) : Z :=
  len (filter (fun ex => str_eqb (PrepareData.language ex) lang) exs).

Definition sum_values (d : Collect.dict) : Z :=
  fold_right (fun kv acc => snd kv + acc) 0 d.

(** A tree with a README below [docs] before the one at the root. *)
Definition nested_readme_tree : list item :=
  [blob (lit "docs/README.md"); blob (lit "ReadMe.MD"); blob (lit "README")].

(** Three examples in two languages. *)
Definition example_in (lang : str) : PrepareData.example :=
  {| PrepareData.repo_name := lit "o/r";
     PrepareData.file_tree := [];
     PrepareData.code_snippets := lit "x";
     PrepareData.readme_content := [];
     PrepareData.stars := 10;
     PrepareData.language := lang |}.

Definition three_examples : list PrepareData.example :=
  [example_in (lit "Go"); example_in (lit "Rust"); example_in (lit "Go")].

(** Induction on a directory tree: a property of the nodes that holds of
    every file, and of a directory when it holds of its entries. *)
Section NodeInduction.

Variable P : Inference.node -> Prop.
Hypothesis P_file : forall f, P (Inference.File f).
Hypothesis P_dir : forall d sub, Forall P sub -> P (Inference.Dir d sub).


End NodeInduction.



(** An answer of the search that never holds more repositories than the
    request asks for a page, for a page size that is not negative; and an
    answer that is a refusal for the rate of the requests. *)
Definition honest (server : Collect.answer) : Prop :=
  forall url hdrs params,
    0 <= Collect.per_page params ->
    len (body (server url hdrs params)) <= Collect.per_page params.

Definition rate_limited (server : Collect.answer) : Prop :=
  forall url hdrs params, status_code (server url hdrs params) = 403.

(** The answer to the search request of one turn of the loop of a
    language. *)
Definition turn_answer (server : Collect.answer) (token : option str)
           (lang : str) (target : Z) (st : Collect.progress)
  : Response (list PrepareData.repo_info) :=
  server (PrepareData.GITHUB_API ++ lit "/search/repositories")
         (PrepareData.get_headers token)
         {| Collect.q := lit "language:" ++ lang ++ lit " stars:"
                         ++ str_of_int 10 ++ lit ".." ++ str_of_int 5000
                         ++ lit " has:readme";
            Collect.sort := lit "stars";
            Collect.order := lit "desc";
            Collect.per_page := Z.min 100 (target - Collect.collected st);
            Collect.page := Collect.current_page st |}.

Definition one_repo_answer : Collect.answer :=
  fun _ _ params =>
    {| status_code := 200;
       body := if 1 <=? Collect.per_page params then [some_repo] else [] |}.

Definition refusal : Collect.answer :=
  fun _ _ _ => {| status_code := 403; body := [] |}.

Definition broken : Collect.answer :=
  fun _ _ _ => {| status_code := 500; body := [] |}.

Definition fresh : Collect.progress :=
  {| Collect.examples := []; Collect.collected := 0;
     Collect.current_page := 1 |}.

(** * The snippet budget *)

Lemma len_slice_to_le : forall {A} (k : Z) (s : list A),
    0 <= k -> len (slice_to k s) <= k.
Proof.
  intros A k s Hk. unfold slice_to, len.
  destruct (k <? 0) eqn:E; [apply Z.ltb_lt in E; lia|].
  rewrite length_firstn. lia.
Qed.

Lemma slice_to_firstn : forall {A} (k : Z) (s : list A),
    0 <= k -> slice_to k s = firstn (Z.to_nat k) s.
Proof.
  intros A k s Hk. unfold slice_to.
  destruct (k <? 0) eqn:E; [apply Z.ltb_lt in E; lia|reflexivity].
Qed.

(** The budget loop of the dataset path is the loop of the two scans, run on
    [get_file_content]. *)
Lemma dataset_loop_is_scan_loop :
  forall net owner repo token file_paths snippets total_chars,
    PrepareData.snippets_loop net owner repo token file_paths snippets total_chars
    = Inference.snippets_loop
        (fun p => PrepareData.get_file_content net owner repo p token)
        file_paths snippets total_chars.
Proof.
  intros net owner repo token file_paths.
  induction file_paths as [|p rest IH]; intros snippets total_chars; simpl.
  - reflexivity.
  - change PrepareData.MAX_TOTAL_CODE_CHARS with Inference.MAX_TOTAL_CODE_CHARS.
    destruct (Inference.MAX_TOTAL_CODE_CHARS <=? total_chars); [reflexivity|].
    destruct (PrepareData.get_file_content net owner repo p token);
      apply IH.
Qed.

Lemma loop_total_bound :
  forall read key_files snippets total_chars,
    total_chars <= 6000 + 1500 ->
    snd (Inference.snippets_loop read key_files snippets total_chars)
    <= 6000 + 1500.
Proof.
  intros read key_files.
  induction key_files as [|f rest IH]; intros snippets total_chars Hle; simpl.
  - exact Hle.
  - destruct (Inference.MAX_TOTAL_CODE_CHARS <=? total_chars) eqn:E.
    + exact Hle.
    + apply Z.leb_gt in E. unfold Inference.MAX_TOTAL_CODE_CHARS in E.
      destruct (read f) as [text|]; apply IH; [|exact Hle].
      pose proof (len_slice_to_le Inference.MAX_FILE_CHARS text) as Hs.
      unfold Inference.MAX_FILE_CHARS in *. lia.
Qed.

Lemma loop_total_reaches :
  forall read key_files snippets total_chars,
    6000 <= snd (Inference.snippets_loop read key_files snippets total_chars)
    \/ snd (Inference.snippets_loop read key_files snippets total_chars)
       = total_chars + truncated_size read key_files.
Proof.
  intros read key_files.
  induction key_files as [|f rest IH]; intros snippets total_chars; simpl.
  - right. lia.
  - destruct (Inference.MAX_TOTAL_CODE_CHARS <=? total_chars) eqn:E.
    + left. apply Z.leb_le in E. exact E.
    + destruct (read f) as [text|].
      * destruct (IH (snippets ++ [Inference.block f (slice_to Inference.MAX_FILE_CHARS text)])
                     (total_chars + len (slice_to Inference.MAX_FILE_CHARS text)))
          as [H|H]; [left; exact H|right].
        rewrite H. unfold Inference.MAX_FILE_CHARS. lia.
      * apply IH.
Qed.

(** C1. Whatever the selection and whatever the contents behind its paths,
    the running total of admitted snippet characters ends at no more than
    6000 + 1500, in the dataset path as in the two scans. *)
Theorem budget_overshoot_bound :
  forall net owner repo token (read : str -> option str) (paths : list str),
    snd (PrepareData.snippets_loop net owner repo token paths [] 0)
    <= 6000 + 1500
    /\ snd (Inference.snippets_loop read paths [] 0) <= 6000 + 1500.
Proof.
  intros. split.
  - rewrite dataset_loop_is_scan_loop. apply loop_total_bound. lia.
  - apply loop_total_bound. lia.
Qed.

(** C2, as stated, fails: one selected file of 6001 characters is fetched
    with success, the untruncated size exceeds 6000, and the total admitted
    is the 1500 characters of its truncation. *)
Lemma one_long_file_stays_below_budget :
  let read := fun p =>
    PrepareData.get_file_content (same_file_net 6001) (lit "o") (lit "r") p None in
  (forall p, In p [lit "main.py"] -> read p <> None)
  /\ 6000 < untruncated_size read [lit "main.py"]
  /\ ~ 6000 <= snd (PrepareData.snippets_loop (same_file_net 6001)
                      (lit "o") (lit "r") None [lit "main.py"] [] 0).
Proof.
  cbv zeta. split; [|split].
  - intros p _. discriminate.
  - vm_compute. reflexivity.
  - vm_compute. intros H. apply H. reflexivity.
Qed.

(** C2, amended. When every file of the selection is read with success and
    the cumulative size of the files after the cut to 1500 characters each
    is at least 6000, the total admitted is at least 6000. *)
Theorem budget_reached_on_truncated_size :
  forall net owner repo token (read : str -> option str) (paths : list str),
    (forall p, In p paths -> read p <> None) ->
    6000 <= truncated_size read paths ->
    6000 <= snd (Inference.snippets_loop read paths [] 0)
    /\ ((forall p, read p = PrepareData.get_file_content net owner repo p token) ->
        6000 <= snd (PrepareData.snippets_loop net owner repo token paths [] 0)).
Proof.
  intros net owner repo token read paths _ Hsize.
  assert (H : 6000 <= snd (Inference.snippets_loop read paths [] 0)).
  { destruct (loop_total_reaches read paths [] 0) as [H|H]; [exact H|].
    rewrite H. lia. }
  split; [exact H|].
  intros Hread. rewrite dataset_loop_is_scan_loop.
  destruct (loop_total_reaches
              (fun p => PrepareData.get_file_content net owner repo p token)
              paths [] 0) as [H'|H']; [exact H'|].
  rewrite H'.
  assert (E : truncated_size
                (fun p => PrepareData.get_file_content net owner repo p token) paths
              = truncated_size read paths).
  { clear -Hread. induction paths as [|p rest IH]; simpl; [reflexivity|].
    rewrite <- Hread, IH. reflexivity. }
  rewrite E. lia.
Qed.

(** Four files of 1500 characters reach the budget. *)
Lemma budget_reached_on_truncated_size_witness :
  let read := fun p =>
    PrepareData.get_file_content (same_file_net 1500) (lit "o") (lit "r") p None in
  6000 <= snd (Inference.snippets_loop read four_files [] 0)
  /\ 6000 <= snd (PrepareData.snippets_loop (same_file_net 1500)
                    (lit "o") (lit "r") None four_files [] 0).
Proof.
  cbv zeta.
  destruct (budget_reached_on_truncated_size
              (same_file_net 1500) (lit "o") (lit "r") None
              (fun p => PrepareData.get_file_content
                          (same_file_net 1500) (lit "o") (lit "r") p None)
              four_files) as [H1 H2].
  - intros p _. discriminate.
  - vm_compute. discriminate.
  - split; [exact H1|]. apply H2. intros p. reflexivity.
Defined.

(** * Failure of the tree request *)

(** C3, as stated, fails: the remote scan of [inference.py] raises the HTTP
    error of a 404 answer to its caller. *)
Lemma remote_scan_raises_on_404 :
  Inference.scan_github_repo (tree_status_net 404) (lit "owner/repo") None
  = Inference.Raise (Inference.HTTPError 404).
Proof. vm_compute. reflexivity. Qed.

(** C3, amended. In the dataset path a status other than 200 on the tree
    request gives no tree and no example, without an error; in the remote
    scan of [inference.py] an error status (400 to 599) on the tree request
    is raised to the caller as an HTTP error. *)
Theorem tree_failure_by_call_site :
  forall net token,
    (forall info,
        status_code (get_tree net
                       (PrepareData.tree_url (PrepareData.owner_login info)
                                             (PrepareData.name info))
                       (PrepareData.get_headers token)) <> 200 ->
        PrepareData.get_repo_tree net (PrepareData.owner_login info)
                                  (PrepareData.name info) token = None
        /\ PrepareData.process_repo net info token = None)
    /\ (forall owner_repo owner repo status,
           split SLASH owner_repo = [owner; repo] ->
           status_code (get_tree net (Inference.tree_url owner repo)
                          (Inference.remote_headers token)) = status ->
           400 <= status < 600 ->
           Inference.scan_github_repo net owner_repo token
           = Inference.Raise (Inference.HTTPError status)).
Proof.
  intros net token. split.
  - intros info Hst.
    assert (E : PrepareData.get_repo_tree net (PrepareData.owner_login info)
                  (PrepareData.name info) token = None).
    { unfold PrepareData.get_repo_tree.
      destruct (Z.eqb_spec
                  (status_code (get_tree net
                     (PrepareData.tree_url (PrepareData.owner_login info)
                                           (PrepareData.name info))
                     (PrepareData.get_headers token))) 200) as [E|E];
        [contradiction|reflexivity]. }
    split; [exact E|]. unfold PrepareData.process_repo. rewrite E. reflexivity.
  - intros owner_repo owner repo status Hsplit Hst Hrange.
    unfold Inference.scan_github_repo. rewrite Hsplit, Hst.
    unfold Inference.is_error_status.
    destruct (Z.leb_spec 400 status); [|lia].
    destruct (Z.ltb_spec status 600); [|lia].
    reflexivity.
Qed.

(** A 404 answer in the dataset path, a 503 answer in the remote scan. *)
Lemma tree_failure_by_call_site_witness :
  (PrepareData.get_repo_tree (tree_status_net 404) (lit "o") (lit "r") None = None
   /\ PrepareData.process_repo (tree_status_net 404) some_repo None = None)
  /\ Inference.scan_github_repo (tree_status_net 503) (lit "o/r") None
     = Inference.Raise (Inference.HTTPError 503).
Proof.
  destruct (tree_failure_by_call_site (tree_status_net 404) None) as [H1 _].
  destruct (tree_failure_by_call_site (tree_status_net 503) None) as [_ H2].
  split.
  - apply (H1 some_repo). simpl. discriminate.
  - apply (H2 (lit "o/r") (lit "o") (lit "r") 503).
    + reflexivity.
    + reflexivity.
    + lia.
Defined.

(** * The structural score *)

(** C5, as stated, fails: the empty text has one line, not none. *)
Lemma empty_text_has_one_line :
  Evaluate.total_lines (Evaluate.structural_score []) <> 0.
Proof. vm_compute. discriminate. Qed.

(** C5, amended. For the empty text [has_description] is false, the
    numbers of headings, code blocks and bullet points and the total length
    are 0, and the number of lines is 1. *)
Theorem structural_score_of_empty_text :
  let sc := Evaluate.structural_score [] in
  Evaluate.has_description sc = false
  /\ Evaluate.num_headings sc = 0
  /\ Evaluate.num_code_blocks sc = 0
  /\ Evaluate.num_bullet_points sc = 0
  /\ Evaluate.total_length sc = 0
  /\ Evaluate.total_lines sc = 1.
Proof. vm_compute. repeat split. Qed.

(** C8. The score of the scenario text: one heading, one code block, no
    install section, no usage section, two bullet points. *)
Theorem structural_score_of_scenario :
  let sc := Evaluate.structural_score SCENARIO in
  Evaluate.num_headings sc = 1
  /\ Evaluate.num_code_blocks sc = 1
  /\ Evaluate.has_install_section sc = false
  /\ Evaluate.has_usage_section sc = false
  /\ Evaluate.num_bullet_points sc = 2.
Proof. vm_compute. repeat split. Qed.

(** * Facts on the text primitives *)

Lemma str_eqb_eq : forall a b, str_eqb a b = true <-> a = b.
Proof.
  intros a b. unfold str_eqb.
  destruct (list_eq_dec N.eq_dec a b); split; intros H;
    [assumption|reflexivity|discriminate|contradiction].
Qed.

Lemma str_eqb_refl : forall a, str_eqb a a = true.
Proof. intros a. apply str_eqb_eq. reflexivity. Qed.

Lemma mem_In : forall x xs, mem x xs = true <-> In x xs.
Proof.
  intros x xs. unfold mem. rewrite existsb_exists. split.
  - intros [y [Hy E]]. apply str_eqb_eq in E. subst y. exact Hy.
  - intros H. exists x. split; [exact H|apply str_eqb_refl].
Qed.

Lemma mem_false_not_In : forall x xs, mem x xs = false <-> ~ In x xs.
Proof.
  intros x xs. split.
  - intros H Hin. apply mem_In in Hin. congruence.
  - intros H. destruct (mem x xs) eqn:E; [|reflexivity].
    apply mem_In in E. contradiction.
Qed.

(** [s.count(c)] for a one-character [c] is the number of positions of [s]
    that hold [c]. *)
Lemma count_one_char : forall c s,
    count [c] s = Z.of_nat (count_occ N.eq_dec s c).
Proof.
  intros c s. unfold count.
  induction s as [|x s IH]; [reflexivity|].
  cbn [count_from startswith length Nat.sub].
  rewrite andb_true_r. cbn [count_occ].
  destruct (N.eqb_spec c x) as [E|E].
  - subst x. destruct (N.eq_dec c c) as [_|N]; [|contradiction].
    rewrite IH. lia.
  - destruct (N.eq_dec x c) as [E'|_]; [subst x; contradiction|].
    exact IH.
Qed.

(** * The quality gate *)

(** C6. The quality gate accepts a text exactly when its length is between 200 and
    4000, it holds at least two [#] and it has at least 50 words; so a text
    of length 199 or 4001 is rejected and a text of length 200 with two [#]
    and 50 words is accepted. *)
Theorem quality_gate_criteria :
  forall readme : str,
    let hashes := Z.of_nat (count_occ N.eq_dec readme HASH) in
    let words := len (split_ws readme) in
    (PrepareData.is_quality_readme readme = true
     <-> 200 <= len readme <= 4000 /\ 2 <= hashes /\ 50 <= words)
    /\ (len readme = 199 -> PrepareData.is_quality_readme readme = false)
    /\ (len readme = 200 -> 2 <= hashes -> 50 <= words ->
        PrepareData.is_quality_readme readme = true)
    /\ (len readme = 4001 -> PrepareData.is_quality_readme readme = false).
Proof.
  intros readme hashes words.
  assert (Hiff : PrepareData.is_quality_readme readme = true
                 <-> 200 <= len readme <= 4000 /\ 2 <= hashes /\ 50 <= words).
  { unfold PrepareData.is_quality_readme, PrepareData.MAX_README_CHARS.
    change (lit "#") with [HASH]. rewrite count_one_char.
    fold hashes. fold words.
    destruct (Z.ltb_spec (len readme) 200); cbv iota;
      [split; [discriminate|lia]|].
    destruct (Z.ltb_spec 4000 (len readme)); cbv iota;
      [split; [discriminate|lia]|].
    destruct (Z.ltb_spec hashes 2); cbv iota;
      [split; [discriminate|lia]|].
    destruct (Z.ltb_spec words 50); cbv iota;
      [split; [discriminate|lia]|].
    split; [lia|reflexivity]. }
  split; [exact Hiff|].
  split; [|split].
  - intros H. apply not_true_is_false. intros E. apply Hiff in E. lia.
  - intros H Hh Hw. apply Hiff. lia.
  - intros H. apply not_true_is_false. intros E. apply Hiff in E. lia.
Qed.

(** A text of 200 characters with 100 [#] and 100 words is accepted. *)
Lemma quality_gate_criteria_witness :
  len HASHES = 200 /\ PrepareData.is_quality_readme HASHES = true.
Proof.
  split; [reflexivity|].
  destruct (quality_gate_criteria HASHES) as [_ [_ [H _]]].
  apply H.
  - reflexivity.
  - vm_compute. discriminate.
  - vm_compute. discriminate.
Defined.

(** * The examples of the dataset *)

Lemma is_readme_true : forall it,
    PrepareData.is_readme it = true ->
    type it = BLOB /\ In (lower (path it)) PrepareData.README_NAMES.
Proof.
  intros it H. unfold PrepareData.is_readme in H.
  apply andb_true_iff in H. destruct H as [H1 H2].
  split; [apply str_eqb_eq; exact H1|apply mem_In; exact H2].
Qed.

Lemma find_readme_Some : forall tree readme_path,
    PrepareData.find_readme tree = Some readme_path ->
    exists it, In it tree /\ PrepareData.is_readme it = true
               /\ path it = readme_path.
Proof.
  intros tree readme_path H. unfold PrepareData.find_readme in H.
  destruct (find PrepareData.is_readme tree) as [it|] eqn:E; [|discriminate].
  apply find_some in E. destruct E as [Hin Hr].
  exists it. simpl in H. injection H as H. auto.
Qed.

Lemma find_readme_None : forall tree,
    (forall it, In it tree -> PrepareData.is_readme it = false) ->
    PrepareData.find_readme tree = None.
Proof.
  intros tree H. unfold PrepareData.find_readme.
  destruct (find PrepareData.is_readme tree) as [it|] eqn:E; [|reflexivity].
  apply find_some in E. destruct E as [Hin Hr].
  rewrite (H it Hin) in Hr. discriminate.
Qed.

Lemma process_repo_Some :
  forall net info token ex,
    PrepareData.process_repo net info token = Some ex ->
    PrepareData.code_snippets ex <> []
    /\ exists tree it raw,
        PrepareData.get_repo_tree net (PrepareData.owner_login info)
                                  (PrepareData.name info) token = Some tree
        /\ In it tree /\ type it = BLOB
        /\ In (lower (path it)) PrepareData.README_NAMES
        /\ PrepareData.get_file_content net (PrepareData.owner_login info)
             (PrepareData.name info) (path it) token = Some raw
        /\ PrepareData.readme_content ex = PrepareData.clean_readme raw
        /\ PrepareData.is_quality_readme (PrepareData.readme_content ex) = true.
Proof.
  intros net info token ex H. unfold PrepareData.process_repo in H.
  destruct (PrepareData.get_repo_tree net (PrepareData.owner_login info)
              (PrepareData.name info) token) as [tree|] eqn:Et; [|discriminate].
  destruct (PrepareData.find_readme tree) as [rp|] eqn:Ef; [|discriminate].
  destruct (PrepareData.get_file_content net (PrepareData.owner_login info)
              (PrepareData.name info) rp token) as [raw|] eqn:Ec; [|discriminate].
  destruct (PrepareData.is_quality_readme (PrepareData.clean_readme raw)) eqn:Eq;
    [|discriminate].
  cbn [negb] in H.
  destruct (PrepareData.build_code_snippets net (PrepareData.owner_login info)
              (PrepareData.name info) (PrepareData.select_key_files tree) token)
    as [|c cs] eqn:Es; [discriminate|].
  injection H as H. subst ex. cbn.
  split; [discriminate|].
  destruct (find_readme_Some tree rp Ef) as [it [Hin [Hr Hp]]].
  destruct (is_readme_true it Hr) as [Hb Hn].
  exists tree, it, raw. subst rp. auto 10.
Qed.

Lemma collect_page_well_formed :
  forall net token repos examples collected,
    Forall well_formed examples ->
    Forall well_formed
           (fst (PrepareData.collect_page net repos token examples collected)).
Proof.
  intros net token repos.
  induction repos as [|info rest IH]; intros examples collected Hall; simpl.
  - exact Hall.
  - destruct (PrepareData.process_repo net info token) as [ex|] eqn:E.
    + apply IH. apply Forall_app. split; [exact Hall|].
      constructor; [|constructor].
      destruct (process_repo_Some net info token ex E)
        as [Hs [tree [it [raw [_ [_ [_ [_ [_ [Hc Hq]]]]]]]]]].
      split; [exact Hs|]. split; [exact Hq|]. exists raw. exact Hc.
    + apply IH. exact Hall.
Qed.

(** C10. An example that [process_repo] returns has a non-empty snippet
    string and, as its README, the normalised text of a README blob of the
    tree, fetched with success and accepted by the quality gate; and there is no
    example when the tree has no README, when the fetch of the README fails,
    when the quality gate rejects its normalised text, or when the snippet string is
    empty.  So every example collected from a page of repositories is of
    that form. *)
Theorem process_repo_examples :
  forall net info token,
    let owner := PrepareData.owner_login info in
    let repo := PrepareData.name info in
    (forall ex,
        PrepareData.process_repo net info token = Some ex ->
        PrepareData.code_snippets ex <> []
        /\ exists tree it raw,
            PrepareData.get_repo_tree net owner repo token = Some tree
            /\ In it tree /\ type it = BLOB
            /\ In (lower (path it)) PrepareData.README_NAMES
            /\ PrepareData.get_file_content net owner repo (path it) token
               = Some raw
            /\ PrepareData.readme_content ex = PrepareData.clean_readme raw
            /\ PrepareData.is_quality_readme (PrepareData.readme_content ex)
               = true)
    /\ (forall tree,
           PrepareData.get_repo_tree net owner repo token = Some tree ->
           (forall it, In it tree -> PrepareData.is_readme it = false)
           \/ (exists readme_path,
                  PrepareData.find_readme tree = Some readme_path
                  /\ (PrepareData.get_file_content net owner repo readme_path token
                      = None
                      \/ exists raw,
                         PrepareData.get_file_content net owner repo
                                                      readme_path token
                         = Some raw
                         /\ PrepareData.is_quality_readme
                              (PrepareData.clean_readme raw) = false))
           \/ PrepareData.build_code_snippets
                net owner repo (PrepareData.select_key_files tree) token = [] ->
           PrepareData.process_repo net info token = None)
    /\ (forall repos,
           Forall well_formed
                  (fst (PrepareData.collect_page net repos token [] 0))).
Proof.
  intros net info token owner repo. split; [|split].
  - intros ex H. exact (process_repo_Some net info token ex H).
  - intros tree Ht Hcase. unfold PrepareData.process_repo.
    fold owner. fold repo. rewrite Ht.
    destruct Hcase as [Hno | [[rp [Hf [Hc | [raw [Hc Hq]]]]] | Hs]].
    + rewrite (find_readme_None tree Hno). reflexivity.
    + rewrite Hf, Hc. reflexivity.
    + rewrite Hf, Hc, Hq. reflexivity.
    + destruct (PrepareData.find_readme tree) as [rp|]; [|reflexivity].
      destruct (PrepareData.get_file_content net owner repo rp token)
        as [raw|]; [|reflexivity].
      destruct (negb (PrepareData.is_quality_readme
                        (PrepareData.clean_readme raw))); [reflexivity|].
      rewrite Hs. reflexivity.
  - intros repos. apply collect_page_well_formed. constructor.
Qed.

(** The repository of [readme_net] gives an example of that form. *)
Lemma process_repo_examples_witness :
  exists ex,
    PrepareData.process_repo readme_net some_repo None = Some ex
    /\ PrepareData.code_snippets ex <> []
    /\ PrepareData.is_quality_readme (PrepareData.readme_content ex) = true.
Proof.
  destruct (PrepareData.process_repo readme_net some_repo None) as [ex|] eqn:E.
  - exists ex. split; [reflexivity|].
    destruct (process_repo_examples readme_net some_repo None) as [H _].
    destruct (H ex E) as [Hs [tree [it [raw [_ [_ [_ [_ [_ [_ Hq]]]]]]]]]].
    split; [exact Hs|exact Hq].
  - exfalso. vm_compute in E. discriminate.
Defined.

(** * The file-tree listing *)

Lemma insert_sorted_In : forall x y l,
    In x (insert_sorted y l) <-> x = y \/ In x l.
Proof.
  intros x y l. induction l as [|z l IH]; simpl.
  - split; [intros [H|[]]; auto|intros [H|[]]; auto].
  - destruct (str_leb y z); simpl; [|rewrite IH]; intuition auto.
Qed.

Lemma sorted_In : forall x l, In x (sorted l) <-> In x l.
Proof.
  intros x l. unfold sorted. induction l as [|y l IH]; simpl.
  - reflexivity.
  - rewrite insert_sorted_In, IH. intuition auto.
Qed.

(** [sorted] puts its argument in the order of [str_leb]. *)
Lemma str_leb_total : forall a b, str_leb a b = false -> str_leb b a = true.
Proof.
  intros a. induction a as [|x a IH]; intros b H.
  - discriminate.
  - destruct b as [|y b]; [reflexivity|]. simpl in *.
    destruct (N.ltb_spec x y) as [Hxy|Hxy]; [discriminate|].
    destruct (N.ltb_spec y x) as [Hyx|Hyx]; [reflexivity|].
    apply IH. exact H.
Qed.

Lemma insert_sorted_Sorted : forall x l,
    Sorted (fun a b => str_leb a b = true) l ->
    Sorted (fun a b => str_leb a b = true) (insert_sorted x l).
Proof.
  intros x l H. induction H as [|y l Hl IH Hhd]; simpl.
  - repeat constructor.
  - destruct (str_leb x y) eqn:E.
    + constructor; [constructor; assumption|constructor; exact E].
    + constructor; [exact IH|].
      destruct l as [|z l]; simpl.
      * constructor. apply str_leb_total. exact E.
      * destruct (str_leb x z); constructor.
        -- apply str_leb_total. exact E.
        -- inversion Hhd; assumption.
Qed.

Lemma sorted_Sorted : forall l,
    Sorted (fun a b => str_leb a b = true) (sorted l).
Proof.
  intros l. unfold sorted. induction l as [|x l IH]; simpl.
  - constructor.
  - apply insert_sorted_Sorted. exact IH.
Qed.

Lemma insert_sorted_Permutation : forall x l,
    Permutation (x :: l) (insert_sorted x l).
Proof.
  intros x l. induction l as [|y l IH]; simpl.
  - apply Permutation_refl.
  - destruct (str_leb x y); [apply Permutation_refl|].
    apply perm_trans with (y :: x :: l); [apply perm_swap|].
    apply perm_skip. exact IH.
Qed.

Lemma sorted_Permutation : forall l, Permutation l (sorted l).
Proof.
  intros l. unfold sorted. induction l as [|x l IH]; simpl.
  - apply Permutation_refl.
  - apply perm_trans with (x :: fold_right insert_sorted [] l).
    + apply perm_skip. exact IH.
    + apply insert_sorted_Permutation.
Qed.

Lemma join_snoc : forall sep l x,
    l <> [] -> join sep (l ++ [x]) = join sep l ++ sep ++ x.
Proof.
  intros sep l x. induction l as [|p l IH]; intros Hne; [contradiction|].
  destruct l as [|q r].
  - reflexivity.
  - change (join sep ((p :: q :: r) ++ [x]))
      with (p ++ sep ++ join sep ((q :: r) ++ [x])).
    rewrite IH by discriminate.
    change (join sep (p :: q :: r)) with (p ++ sep ++ join sep (q :: r)).
    rewrite <- !app_assoc. reflexivity.
Qed.

Lemma split_no_sep : forall sep p, ~ In sep p -> split sep p = [p].
Proof.
  intros sep p. induction p as [|c p IH]; intros Hn; simpl.
  - reflexivity.
  - destruct (N.eqb_spec c sep) as [E|E].
    + exfalso. apply Hn. left. exact E.
    + rewrite IH; [reflexivity|]. intros H. apply Hn. right. exact H.
Qed.

Lemma split_app_sep : forall sep p rest,
    ~ In sep p -> split sep (p ++ sep :: rest) = p :: split sep rest.
Proof.
  intros sep p rest. induction p as [|c p IH]; intros Hn; simpl.
  - rewrite N.eqb_refl. reflexivity.
  - destruct (N.eqb_spec c sep) as [E|E].
    + exfalso. apply Hn. left. exact E.
    + rewrite IH; [reflexivity|]. intros H. apply Hn. right. exact H.
Qed.

(** Splitting a joined list of lines gives the lines back. *)
Lemma split_join : forall sep l,
    l <> [] -> (forall p, In p l -> ~ In sep p) ->
    split sep (join [sep] l) = l.
Proof.
  intros sep l. induction l as [|p l IH]; intros Hne Hl; [contradiction|].
  destruct l as [|q r].
  - simpl. apply split_no_sep. apply Hl. left. reflexivity.
  - change (join [sep] (p :: q :: r)) with (p ++ sep :: join [sep] (q :: r)).
    rewrite split_app_sep by (apply Hl; left; reflexivity).
    rewrite IH; [reflexivity|discriminate|].
    intros p' Hp'. apply Hl. right. exact Hp'.
Qed.

Lemma listed_paths_In : forall tree p,
    In p (PrepareData.listed_paths tree) ->
    exists it, In it tree /\ PrepareData.listed it = true /\ path it = p.
Proof.
  intros tree p H. unfold PrepareData.listed_paths in H.
  apply (proj1 (sorted_In _ _)) in H. apply (proj1 (in_map_iff _ _ _)) in H.
  destruct H as [it [Hp Hin]]. apply (proj1 (filter_In _ _ _)) in Hin.
  exists it. intuition auto.
Qed.

Lemma remote_paths_In : forall tree p,
    In p (remote_paths tree) ->
    exists it, In it tree /\ Inference.remote_listed it = true /\ path it = p.
Proof.
  intros tree p H. unfold remote_paths in H.
  apply (proj1 (sorted_In _ _)) in H. apply (proj1 (in_map_iff _ _ _)) in H.
  destruct H as [it [Hp Hin]]. apply (proj1 (filter_In _ _ _)) in Hin.
  exists it. intuition auto.
Qed.

Lemma listed_no_dot_segment : forall it,
    PrepareData.listed it = true -> dot_segment (path it) = false.
Proof.
  intros it H. unfold PrepareData.listed in H.
  repeat (apply andb_true_iff in H; destruct H as [H ?]).
  apply negb_true_iff. assumption.
Qed.

Lemma remote_listed_no_dot_segment : forall it,
    Inference.remote_listed it = true -> dot_segment (path it) = false.
Proof.
  intros it H. unfold Inference.remote_listed in H.
  repeat (apply andb_true_iff in H; destruct H as [H ?]).
  apply negb_true_iff. assumption.
Qed.

(** A path with a dot segment is no entry of either listing. *)
Lemma dot_segment_not_listed : forall tree p,
    dot_segment p = true ->
    ~ In p (PrepareData.listed_paths tree) /\ ~ In p (remote_paths tree).
Proof.
  intros tree p Hd. split; intros H.
  - destruct (listed_paths_In tree p H) as [it [_ [Hl Hp]]].
    apply listed_no_dot_segment in Hl. congruence.
  - destruct (remote_paths_In tree p H) as [it [_ [Hl Hp]]].
    apply remote_listed_no_dot_segment in Hl. congruence.
Qed.

Lemma firstn_incl : forall {A} n (l : list A) x, In x (firstn n l) -> In x l.
Proof.
  intros A n l x H. rewrite <- (firstn_skipn n l).
  apply in_or_app. left. exact H.
Qed.

(** The shape of a listing cut at 80 entries, on any list of paths that
    does not hold the marker. *)
Lemma cut_listing : forall (paths : list str) (out : str),
    ~ In PrepareData.TRUNCATED paths ->
    out = (if 80 <? len paths
           then join [NEWLINE] (firstn 80 paths ++ [PrepareData.TRUNCATED])
           else join [NEWLINE] paths) ->
    (80 < len paths ->
     out = join [NEWLINE] (firstn 80 paths ++ [PrepareData.TRUNCATED])
     /\ length (firstn 80 paths) = 80%nat
     /\ ~ In PrepareData.TRUNCATED (firstn 80 paths)
     /\ ((forall p, In p paths -> ~ In NEWLINE p) ->
         split NEWLINE out = firstn 80 paths ++ [PrepareData.TRUNCATED]))
    /\ (len paths <= 80 ->
        out = join [NEWLINE] paths
        /\ ~ In PrepareData.TRUNCATED paths
        /\ (paths <> [] -> (forall p, In p paths -> ~ In NEWLINE p) ->
            split NEWLINE out = paths)).
Proof.
  intros paths out Hmark Hout. split; intros Hlen.
  - destruct (Z.ltb_spec 80 (len paths)) as [_|C]; [|lia].
    assert (Hn : length (firstn 80 paths) = 80%nat).
    { rewrite length_firstn. unfold len in Hlen. lia. }
    split; [exact Hout|]. split; [exact Hn|]. split.
    + intros H. apply Hmark. exact (firstn_incl _ _ _ H).
    + intros Hnl. rewrite Hout. apply split_join.
      * destruct (firstn 80 paths); discriminate.
      * intros p Hp. apply in_app_or in Hp. destruct Hp as [Hp|[Hp|[]]].
        -- apply Hnl. exact (firstn_incl _ _ _ Hp).
        -- subst p. vm_compute. intuition discriminate.
  - destruct (Z.ltb_spec 80 (len paths)) as [C|_]; [lia|].
    split; [exact Hout|]. split; [exact Hmark|].
    intros Hne Hnl. rewrite Hout. apply split_join; assumption.
Qed.

Lemma remote_file_tree_cut : forall tree,
    Inference.remote_file_tree tree
    = (if 80 <? len (remote_paths tree)
       then join [NEWLINE] (firstn 80 (remote_paths tree)
                            ++ [PrepareData.TRUNCATED])
       else join [NEWLINE] (remote_paths tree)).
Proof.
  intros tree. unfold Inference.remote_file_tree, Inference.file_tree_of.
  fold (remote_paths tree).
  destruct (Z.ltb_spec 80 (len (remote_paths tree))) as [H|H]; [|reflexivity].
  rewrite slice_to_firstn by lia. change (Z.to_nat 80) with 80%nat.
  rewrite join_snoc.
  - reflexivity.
  - unfold len in H. destruct (remote_paths tree); [simpl in H; lia|discriminate].
Qed.

(** C7. With more than 80 listed paths the file-tree string is the first 80
    paths of the sorted list followed by the one marker line, and with 80
    or fewer it is all of them without a marker: for the listing of the
    dataset path and for that of the remote scan, whose paths are in the
    order of the code points.  Neither function takes the contents of the
    files or the snippet budget. *)
Theorem file_tree_truncation :
  forall tree,
    let marker := PrepareData.TRUNCATED in
    let listing (paths : list str) (out : str) :=
      (80 < len paths ->
       out = join [NEWLINE] (firstn 80 paths ++ [marker])
       /\ length (firstn 80 paths) = 80%nat
       /\ ~ In marker (firstn 80 paths)
       /\ ((forall p, In p paths -> ~ In NEWLINE p) ->
           split NEWLINE out = firstn 80 paths ++ [marker]))
      /\ (len paths <= 80 ->
          out = join [NEWLINE] paths
          /\ ~ In marker paths
          /\ (paths <> [] -> (forall p, In p paths -> ~ In NEWLINE p) ->
              split NEWLINE out = paths)) in
    listing (PrepareData.listed_paths tree)
            (PrepareData.build_file_tree_string tree 80)
    /\ listing (remote_paths tree) (Inference.remote_file_tree tree)
    /\ Sorted (fun a b => str_leb a b = true) (PrepareData.listed_paths tree)
    /\ Sorted (fun a b => str_leb a b = true) (remote_paths tree).
Proof.
  intros tree marker listing. unfold listing, marker.
  split; [|split; [|split; apply sorted_Sorted]].
  - apply cut_listing.
    + apply (dot_segment_not_listed tree PrepareData.TRUNCATED). reflexivity.
    + unfold PrepareData.build_file_tree_string.
      destruct (80 <? len (PrepareData.listed_paths tree)); [|reflexivity].
      rewrite slice_to_firstn by lia. reflexivity.
  - apply cut_listing.
    + apply (dot_segment_not_listed tree PrepareData.TRUNCATED). reflexivity.
    + apply remote_file_tree_cut.
Qed.

Lemma no_newline_check : forall l : list str,
    forallb (fun p => negb (existsb (N.eqb NEWLINE) p)) l = true ->
    forall p, In p l -> ~ In NEWLINE p.
Proof.
  intros l H p Hp Hn.
  rewrite forallb_forall in H. specialize (H p Hp).
  apply negb_true_iff in H.
  assert (E : existsb (N.eqb NEWLINE) p = true).
  { apply existsb_exists. exists NEWLINE. split; [exact Hn|apply N.eqb_refl]. }
  congruence.
Qed.

(** The lines of the listings of a tree of 81 blobs and of a tree of two. *)
Lemma file_tree_truncation_witness :
  (split NEWLINE (PrepareData.build_file_tree_string numbered_tree 80)
   = firstn 80 (PrepareData.listed_paths numbered_tree)
     ++ [PrepareData.TRUNCATED]
   /\ split NEWLINE (Inference.remote_file_tree numbered_tree)
      = firstn 80 (remote_paths numbered_tree) ++ [PrepareData.TRUNCATED])
  /\ split NEWLINE (PrepareData.build_file_tree_string small_tree 80)
     = PrepareData.listed_paths small_tree
  /\ split NEWLINE (Inference.remote_file_tree small_tree)
     = remote_paths small_tree.
Proof.
  destruct (file_tree_truncation numbered_tree) as [[H1 _] [[H2 _] _]].
  destruct (file_tree_truncation small_tree) as [[_ H3] [[_ H4] _]].
  split; [split|split].
  - apply H1; [vm_compute; reflexivity|].
    apply no_newline_check. vm_compute. reflexivity.
  - apply H2; [vm_compute; reflexivity|].
    apply no_newline_check. vm_compute. reflexivity.
  - apply H3; [vm_compute; discriminate|vm_compute; discriminate|].
    apply no_newline_check. vm_compute. reflexivity.
  - apply H4; [vm_compute; discriminate|vm_compute; discriminate|].
    apply no_newline_check. vm_compute. reflexivity.
Defined.

(** * The selection of key files *)

Lemma important_pass_eq : forall tree selected,
    PrepareData.important_pass tree selected
    = selected ++ map path (filter PrepareData.is_important tree).
Proof.
  intros tree. unfold PrepareData.important_pass.
  induction tree as [|it tree IH]; intros selected; simpl.
  - rewrite app_nil_r. reflexivity.
  - rewrite IH. destruct (PrepareData.is_important it); simpl.
    + rewrite <- app_assoc. reflexivity.
    + reflexivity.
Qed.

Lemma code_pass_eq : forall tree selected,
    PrepareData.code_pass tree selected
    = selected ++ map path (filter PrepareData.is_code_file tree).
Proof.
  intros tree. unfold PrepareData.code_pass.
  induction tree as [|it tree IH]; intros selected; simpl.
  - rewrite app_nil_r. reflexivity.
  - rewrite IH. destruct (PrepareData.is_code_file it); simpl.
    + rewrite <- app_assoc. reflexivity.
    + reflexivity.
Qed.

(** The paths already in [deduped] stay in front. *)
Lemma dedup_loop_acc : forall selected seen deduped,
    PrepareData.dedup_loop selected seen deduped
    = deduped ++ PrepareData.dedup_loop selected seen [].
Proof.
  intros selected.
  induction selected as [|p rest IH]; intros seen deduped; simpl.
  - rewrite app_nil_r. reflexivity.
  - destruct (mem p seen); simpl.
    + apply IH.
    + rewrite (IH (p :: seen) (deduped ++ [p])), (IH (p :: seen) [p]).
      rewrite <- app_assoc. reflexivity.
Qed.

Lemma firstn_In_le : forall {A} (k n : nat) (l : list A) x,
    (k <= n)%nat -> In x (firstn k l) -> In x (firstn n l).
Proof.
  intros A k n l x Hle H.
  replace k with (Nat.min k n) in H by lia.
  rewrite <- firstn_firstn in H. exact (firstn_incl _ _ _ H).
Qed.

(** A path met after [length before] others is among the first
    [S (length before)] deduplicated paths, unless it was seen already. *)
Lemma dedup_loop_early : forall before p after seen,
    mem p seen = false ->
    In p (firstn (S (length before))
                 (PrepareData.dedup_loop (before ++ p :: after) seen [])).
Proof.
  intros before p after.
  induction before as [|q before IH]; intros seen Hs.
  - cbn [app PrepareData.dedup_loop length]. rewrite Hs. cbn [negb app].
    rewrite dedup_loop_acc. left. reflexivity.
  - cbn [app PrepareData.dedup_loop length].
    destruct (mem q seen) eqn:Eq; cbn [negb app].
    + apply (firstn_In_le (S (length before))); [lia|]. apply IH. exact Hs.
    + rewrite dedup_loop_acc. cbn [app firstn].
      destruct (list_eq_dec N.eq_dec q p) as [E|E]; [left; exact E|].
      right. apply IH. cbn [mem existsb] in *.
      apply orb_false_iff. split; [|exact Hs].
      destruct (str_eqb p q) eqn:Epq; [|reflexivity].
      apply str_eqb_eq in Epq. congruence.
Qed.

Lemma important_selected_within_cap : forall before it after,
    PrepareData.is_important it = true ->
    len (filter PrepareData.is_important before) < 10 ->
    In (path it) (PrepareData.select_key_files (before ++ it :: after)).
Proof.
  intros before it after Hi Hlen.
  unfold PrepareData.select_key_files.
  rewrite slice_to_firstn by lia. change (Z.to_nat 10) with 10%nat.
  rewrite code_pass_eq, important_pass_eq. cbn [app].
  rewrite filter_app. cbn [filter]. rewrite Hi.
  rewrite map_app. cbn [map]. rewrite <- app_assoc. cbn [app].
  apply (firstn_In_le
           (S (length (map path (filter PrepareData.is_important before))))).
  - rewrite length_map. unfold len in Hlen. lia.
  - apply dedup_loop_early. reflexivity.
Qed.

(** C9, as stated, fails: [.env.example] is a blob of the tree with an
    important name, and ten manifests before it fill the selection. *)
Lemma env_example_cut_by_the_cap :
  In ENV_EXAMPLE crowded_tree
  /\ type ENV_EXAMPLE = BLOB
  /\ In (lower (basename (path ENV_EXAMPLE))) PrepareData.IMPORTANT_FILES
  /\ ~ In (path ENV_EXAMPLE) (PrepareData.select_key_files crowded_tree).
Proof.
  split; [|split; [|split]].
  - apply in_or_app. right. left. reflexivity.
  - reflexivity.
  - apply mem_In. reflexivity.
  - apply mem_false_not_In. vm_compute. reflexivity.
Qed.

(** C9, amended. The selection applies none of the filters of the listing:
    a blob with an important name is selected, whatever its path, when
    fewer than ten blobs with an important name come before it in the tree;
    so is a root-level [.env.example], which can give a snippet, while no
    path with a dot segment, and so not [.env.example], is an entry of the
    listing. *)
Theorem important_files_bypass_listing_filters :
  (forall before it after,
      type it = BLOB ->
      In (lower (basename (path it))) PrepareData.IMPORTANT_FILES ->
      len (filter PrepareData.is_important before) < 10 ->
      In (path it) (PrepareData.select_key_files (before ++ it :: after)))
  /\ (forall before after,
         len (filter PrepareData.is_important before) < 10 ->
         In (lit ".env.example")
            (PrepareData.select_key_files (before ++ ENV_EXAMPLE :: after)))
  /\ (forall tree p,
         dot_segment p = true -> ~ In p (PrepareData.listed_paths tree))
  /\ (forall tree, ~ In (lit ".env.example") (PrepareData.listed_paths tree))
  /\ PrepareData.build_code_snippets
       (same_file_net 10) (lit "o") (lit "r")
       (PrepareData.select_key_files [ENV_EXAMPLE]) None
     = PrepareData.block (lit ".env.example") (letters 10)
  /\ PrepareData.build_file_tree_string [ENV_EXAMPLE] 80 = [].
Proof.
  split; [|split; [|split; [|split; [|split]]]].
  - intros before it after Hb Hn Hlen.
    apply important_selected_within_cap; [|exact Hlen].
    unfold PrepareData.is_important. rewrite Hb, str_eqb_refl.
    apply mem_In. exact Hn.
  - intros before after Hlen.
    apply (important_selected_within_cap before ENV_EXAMPLE after);
      [reflexivity|exact Hlen].
  - intros tree p Hd. apply (dot_segment_not_listed tree p Hd).
  - intros tree. apply (dot_segment_not_listed tree). reflexivity.
  - vm_compute. reflexivity.
  - vm_compute. reflexivity.
Qed.

(** A [setup.py] below [.cache/node_modules] is selected and not listed. *)
Lemma important_files_bypass_listing_filters_witness :
  In (path HIDDEN_SETUP)
     (PrepareData.select_key_files ([blob (lit "a.py")] ++ HIDDEN_SETUP :: []))
  /\ ~ In (path HIDDEN_SETUP)
          (PrepareData.listed_paths ([blob (lit "a.py")] ++ HIDDEN_SETUP :: [])).
Proof.
  destruct important_files_bypass_listing_filters as [H1 [_ [H3 _]]].
  split.
  - apply (H1 [blob (lit "a.py")] HIDDEN_SETUP []).
    + reflexivity.
    + apply mem_In. reflexivity.
    + vm_compute. reflexivity.
  - apply H3. reflexivity.
Defined.

(** * The three call sites *)

Lemma download_is_get_file_content : forall net owner repo token p,
    PrepareData.get_file_content net owner repo p token
    = Inference.download net owner repo (Inference.remote_headers token) p.
Proof.
  intros net owner repo token p.
  unfold PrepareData.get_file_content, Inference.download.
  change (PrepareData.get_headers token) with (Inference.remote_headers token).
  change (PrepareData.raw_url owner repo p)
    with (lit "https://raw.githubusercontent.com/" ++ owner ++ lit "/"
          ++ repo ++ lit "/HEAD/" ++ p).
  destruct (status_code _ =? 200); reflexivity.
Qed.

Lemma snippets_loop_ext : forall read read' key_files snippets total_chars,
    (forall f, read f = read' f) ->
    Inference.snippets_loop read key_files snippets total_chars
    = Inference.snippets_loop read' key_files snippets total_chars.
Proof.
  intros read read' key_files snippets total_chars H. revert snippets total_chars.
  induction key_files as [|f rest IH]; intros snippets total_chars; simpl.
  - reflexivity.
  - rewrite <- H. destruct (Inference.MAX_TOTAL_CODE_CHARS <=? total_chars);
      [reflexivity|].
    destruct (read f); apply IH.
Qed.

Lemma remote_first_loop : forall tree key_files,
    fold_left (fun key_files it =>
                 if Inference.remote_important it then key_files ++ [path it]
                 else key_files) tree key_files
    = key_files ++ map path (filter Inference.remote_important tree).
Proof.
  intros tree. induction tree as [|it tree IH]; intros key_files; simpl.
  - rewrite app_nil_r. reflexivity.
  - rewrite IH. destruct (Inference.remote_important it); simpl.
    + rewrite <- app_assoc. reflexivity.
    + reflexivity.
Qed.

Lemma remote_second_loop : forall tree key_files,
    fold_left (fun key_files it =>
                 if Inference.remote_code_file it
                 then if negb (mem (path it) key_files)
                      then key_files ++ [path it]
                      else key_files
                 else key_files) tree key_files
    = fold_left add_new (map path (filter Inference.remote_code_file tree))
                key_files.
Proof.
  intros tree. induction tree as [|it tree IH]; intros key_files; simpl.
  - reflexivity.
  - rewrite IH. destruct (Inference.remote_code_file it); reflexivity.
Qed.

Lemma mem_app : forall p l l', mem p (l ++ l') = mem p l || mem p l'.
Proof. intros. unfold mem. apply existsb_app. Qed.

(** The deduplication loop appends the paths that are new, as long as
    [seen] holds the paths of [deduped]. *)
Lemma dedup_loop_fold : forall selected seen deduped,
    (forall p, mem p seen = mem p deduped) ->
    PrepareData.dedup_loop selected seen deduped
    = fold_left add_new selected deduped.
Proof.
  intros selected.
  induction selected as [|q rest IH]; intros seen deduped Hs; simpl.
  - reflexivity.
  - unfold add_new at 2. rewrite <- Hs.
    destruct (mem q seen) eqn:E; cbn [negb].
    + apply IH. exact Hs.
    + apply IH. intros p. rewrite mem_app. cbn [mem existsb].
      rewrite orb_false_r. fold (mem p seen). fold (mem p deduped).
      rewrite Hs. apply orb_comm.
Qed.

Lemma add_new_distinct : forall l key_files,
    NoDup (key_files ++ l) -> fold_left add_new l key_files = key_files ++ l.
Proof.
  intros l. induction l as [|p l IH]; intros key_files Hnd; simpl.
  - rewrite app_nil_r. reflexivity.
  - assert (Hp : mem p key_files = false).
    { apply mem_false_not_In. intros Hin.
      apply NoDup_remove_2 in Hnd. apply Hnd.
      apply in_or_app. left. exact Hin. }
    unfold add_new at 2. rewrite Hp. cbn [negb].
    rewrite IH; rewrite <- app_assoc; [reflexivity|exact Hnd].
Qed.

Lemma NoDup_map_filter : forall {A B} (g : A -> B) (f : A -> bool) l,
    NoDup (map g l) -> NoDup (map g (filter f l)).
Proof.
  intros A B g f l. induction l as [|a l IH]; intros H; simpl.
  - constructor.
  - inversion H as [|x xs Hx Hxs]; subst.
    destruct (f a); [|apply IH; exact Hxs].
    simpl. constructor; [|apply IH; exact Hxs].
    intros Hin. apply Hx. apply in_map_iff in Hin.
    destruct Hin as [y [Hy Hin]]. apply filter_In in Hin.
    apply in_map_iff. exists y. intuition auto.
Qed.

Lemma code_file_tests_agree : forall it,
    PrepareData.is_code_file it = Inference.remote_code_file it.
Proof.
  intros it. unfold PrepareData.is_code_file, Inference.remote_code_file.
  change PrepareData.CODE_EXTENSIONS with Inference.CODE_EXTENSIONS.
  destruct (str_eqb (type it) BLOB); cbn [negb]; [|reflexivity].
  destruct (mem (lower (splitext_ext (path it))) Inference.CODE_EXTENSIONS);
    reflexivity.
Qed.

(** On a tree without a repeated path the selection of the dataset path is
    that of the remote scan. *)
Lemma selections_agree : forall tree,
    NoDup (map path tree) ->
    PrepareData.select_key_files tree = Inference.remote_key_files tree.
Proof.
  intros tree Hnd.
  unfold PrepareData.select_key_files, Inference.remote_key_files.
  f_equal.
  rewrite code_pass_eq, important_pass_eq.
  rewrite remote_second_loop, remote_first_loop. cbn [app].
  rewrite (dedup_loop_fold _ [] []) by reflexivity.
  rewrite fold_left_app.
  rewrite (add_new_distinct (map path (filter PrepareData.is_important tree)) [])
    by (apply NoDup_map_filter; exact Hnd).
  cbn [app].
  rewrite (filter_ext _ _ code_file_tests_agree). reflexivity.
Qed.

Lemma listings_agree : forall tree,
    (forall it, In it tree -> contains (lit ".egg-info") (path it) = false) ->
    PrepareData.build_file_tree_string tree 80 = Inference.remote_file_tree tree.
Proof.
  intros tree Hegg. rewrite remote_file_tree_cut.
  assert (E : PrepareData.listed_paths tree = remote_paths tree).
  { unfold PrepareData.listed_paths, remote_paths. do 2 f_equal.
    apply filter_ext_in. intros it Hin.
    unfold PrepareData.listed. rewrite (Hegg it Hin).
    fold (Inference.remote_listed it). apply andb_true_r. }
  unfold PrepareData.build_file_tree_string. rewrite E.
  destruct (80 <? len (remote_paths tree)); [|reflexivity].
  rewrite slice_to_firstn by lia. reflexivity.
Qed.

Lemma local_selection_is_remote : forall files,
    Inference.local_key_files files
    = Inference.remote_key_files (map blob files).
Proof.
  intros files. unfold Inference.local_key_files, Inference.remote_key_files.
  f_equal.
  assert (H1 : forall l key_files,
             fold_left (fun key_files f =>
                          if Inference.local_important f
                          then key_files ++ [f] else key_files) l key_files
             = fold_left (fun key_files it =>
                            if Inference.remote_important it
                            then key_files ++ [path it] else key_files)
                         (map blob l) key_files).
  { induction l as [|f l IH]; intros key_files; simpl; [reflexivity|].
    apply IH. }
  assert (H2 : forall l key_files,
             fold_left (fun key_files f =>
                          if Inference.local_code_file f
                          then if negb (mem f key_files)
                               then key_files ++ [f] else key_files
                          else key_files) l key_files
             = fold_left (fun key_files it =>
                            if Inference.remote_code_file it
                            then if negb (mem (path it) key_files)
                                 then key_files ++ [path it]
                                 else key_files
                            else key_files) (map blob l) key_files).
  { induction l as [|f l IH]; intros key_files; simpl; [reflexivity|].
    apply IH. }
  rewrite H1, H2. reflexivity.
Qed.

(** The three outputs are what the call sites return or store. *)
Lemma scan_local_repo_output : forall repo,
    let out := local_output (Inference.read_text repo)
                            (Inference.walk [] (Inference.top repo)) in
    Inference.scan_local_repo repo
    = (Inference.repo_dir_name repo, fst (fst out), snd out).
Proof. intros repo. reflexivity. Qed.

Lemma scan_github_repo_output : forall net owner_repo owner repo token,
    split SLASH owner_repo = [owner; repo] ->
    let resp := get_tree net (Inference.tree_url owner repo)
                         (Inference.remote_headers token) in
    let out := remote_output net owner repo token (body resp) in
    Inference.is_error_status (status_code resp) = false ->
    Inference.scan_github_repo net owner_repo token
    = Inference.Return (owner_repo, fst (fst out), snd out).
Proof.
  intros net owner_repo owner repo token Hsplit resp out Hst.
  unfold Inference.scan_github_repo. rewrite Hsplit. fold resp.
  rewrite Hst. reflexivity.
Qed.

Lemma process_repo_output : forall net info token ex,
    PrepareData.process_repo net info token = Some ex ->
    exists tree,
      PrepareData.get_repo_tree net (PrepareData.owner_login info)
                                (PrepareData.name info) token = Some tree
      /\ let out := dataset_output net (PrepareData.owner_login info)
                                   (PrepareData.name info) token tree in
         PrepareData.file_tree ex = fst (fst out)
         /\ PrepareData.code_snippets ex = snd out.
Proof.
  intros net info token ex H. unfold PrepareData.process_repo in H.
  destruct (PrepareData.get_repo_tree net (PrepareData.owner_login info)
              (PrepareData.name info) token) as [tree|]; [|discriminate].
  exists tree. split; [reflexivity|].
  destruct (PrepareData.find_readme tree) as [rp|]; [|discriminate].
  destruct (PrepareData.get_file_content net (PrepareData.owner_login info)
              (PrepareData.name info) rp token) as [raw|]; [|discriminate].
  destruct (negb (PrepareData.is_quality_readme (PrepareData.clean_readme raw)));
    [discriminate|].
  cbn [dataset_output fst snd].
  destruct (PrepareData.build_code_snippets net (PrepareData.owner_login info)
              (PrepareData.name info) (PrepareData.select_key_files tree) token)
    as [|c cs]; [discriminate|].
  injection H as H. subst ex. split; reflexivity.
Qed.

(** C4, as stated, fails: on the tree of one [.egg-info] file the listing of
    the dataset path is empty and that of the remote scan is not. *)
Lemma egg_info_listed_by_remote_scan_only :
  fst (fst (dataset_output (same_file_net 10) (lit "o") (lit "r") None egg_tree))
  <> fst (fst (remote_output (same_file_net 10) (lit "o") (lit "r") None egg_tree)).
Proof. vm_compute. discriminate. Qed.

(** C4, amended. On a tree without a repeated path and without a path that
    contains [.egg-info], the dataset path and the remote scan give the same
    file-tree string, selection and snippets; the local scan gives what the
    remote scan gives on the tree of its files when these are in sorted
    order, none of them is excluded by the filter of the remote listing, and
    reading a file gives what downloading it gives. *)
Theorem call_sites_agree :
  forall net owner repo token,
    (forall tree,
        NoDup (map path tree) ->
        (forall it, In it tree -> contains (lit ".egg-info") (path it) = false) ->
        dataset_output net owner repo token tree
        = remote_output net owner repo token tree)
    /\ (forall read files,
           sorted files = files ->
           (forall f, In f files -> Inference.remote_listed (blob f) = true) ->
           (forall f, read f = Inference.download
                                 net owner repo (Inference.remote_headers token) f) ->
           local_output read files
           = remote_output net owner repo token (map blob files)).
Proof.
  intros net owner repo token. split.
  - intros tree Hnd Hegg. unfold dataset_output, remote_output.
    rewrite (listings_agree tree Hegg), (selections_agree tree Hnd).
    f_equal.
    unfold PrepareData.build_code_snippets, Inference.remote_snippets.
    rewrite dataset_loop_is_scan_loop.
    rewrite (snippets_loop_ext _ (Inference.download net owner repo
                                    (Inference.remote_headers token)));
      [reflexivity|].
    intros f. apply download_is_get_file_content.
  - intros read files Hsorted Hlisted Hread. unfold local_output, remote_output.
    rewrite Hsorted, local_selection_is_remote.
    assert (E : Inference.file_tree_of files
                = Inference.remote_file_tree (map blob files)).
    { unfold Inference.remote_file_tree.
      assert (F : filter Inference.remote_listed (map blob files)
                  = map blob files).
      { clear -Hlisted. induction files as [|f l IH]; [reflexivity|].
        simpl. rewrite (Hlisted f) by (left; reflexivity).
        f_equal. apply IH. intros g Hg. apply Hlisted. right. exact Hg. }
      rewrite F, map_map. cbn [path blob]. rewrite map_id, Hsorted.
      reflexivity. }
    rewrite E. f_equal.
    unfold Inference.local_snippets, Inference.remote_snippets.
    rewrite (snippets_loop_ext _ _ _ _ _ Hread). reflexivity.
Qed.

(** The three call sites on the repository of [readme_net]. *)
Lemma call_sites_agree_witness :
  dataset_output readme_net (lit "o") (lit "r") None small_tree
  = remote_output readme_net (lit "o") (lit "r") None small_tree
  /\ local_output (Inference.download readme_net (lit "o") (lit "r")
                     (Inference.remote_headers None))
                  [lit "README.md"; lit "main.py"]
     = remote_output readme_net (lit "o") (lit "r") None
                     (map blob [lit "README.md"; lit "main.py"]).
Proof.
  destruct (call_sites_agree readme_net (lit "o") (lit "r") None) as [H1 H2].
  split.
  - apply H1.
    + repeat constructor; simpl; intuition discriminate.
    + intros it [H|[H|[]]]; subst it; reflexivity.
  - apply H2.
    + reflexivity.
    + intros f [H|[H|[]]]; subst f; reflexivity.
    + intros f. reflexivity.
Defined.

(** * More on the selection of key files *)

Lemma add_new_In : forall l key_files x,
    In x (fold_left add_new l key_files) <-> In x key_files \/ In x l.
Proof.
  intros l. induction l as [|p l IH]; intros key_files x; simpl.
  - tauto.
  - rewrite IH. unfold add_new.
    destruct (mem p key_files) eqn:E; cbn [negb].
    + apply mem_In in E. split; [tauto|].
      intros [H|[H|H]]; [tauto|subst x; tauto|tauto].
    + rewrite in_app_iff. simpl. tauto.
Qed.

Lemma add_new_NoDup : forall l key_files,
    NoDup key_files -> NoDup (fold_left add_new l key_files).
Proof.
  intros l. induction l as [|p l IH]; intros key_files H; simpl.
  - exact H.
  - apply IH. unfold add_new.
    destruct (mem p key_files) eqn:E; cbn [negb]; [exact H|].
    apply mem_false_not_In in E.
    apply NoDup_app; [exact H|repeat constructor; simpl; tauto|].
    intros x Hx [Hp|[]]. subst x. contradiction.
Qed.

(** The paths appended to [key_files] come after it. *)
Lemma add_new_prefix : forall l key_files,
    exists added, fold_left add_new l key_files = key_files ++ added
                  /\ forall x, In x added -> In x l /\ ~ In x key_files.
Proof.
  intros l. induction l as [|p l IH]; intros key_files; simpl.
  - exists []. rewrite app_nil_r. split; [reflexivity|intros x []].
  - destruct (IH (add_new key_files p)) as [added [E Hadd]].
    unfold add_new in *. destruct (mem p key_files) eqn:Ep; cbn [negb] in *.
    + exists added. split; [exact E|].
      intros x Hx. destruct (Hadd x Hx). tauto.
    + exists (p :: added). rewrite E, <- app_assoc. split; [reflexivity|].
      apply mem_false_not_In in Ep.
      intros x [Hx|Hx]; [subst x; tauto|].
      destruct (Hadd x Hx) as [H1 H2]. split; [tauto|].
      intros H. apply H2. apply in_or_app. left. exact H.
Qed.

Lemma select_key_files_eq : forall tree,
    PrepareData.select_key_files tree
    = firstn 10 (fold_left add_new (important_paths tree ++ code_paths tree) []).
Proof.
  intros tree. unfold PrepareData.select_key_files.
  rewrite slice_to_firstn by lia. change (Z.to_nat 10) with 10%nat.
  rewrite code_pass_eq, important_pass_eq. cbn [app].
  rewrite (dedup_loop_fold _ [] []) by reflexivity. reflexivity.
Qed.

Lemma NoDup_firstn : forall {A} n (l : list A), NoDup l -> NoDup (firstn n l).
Proof.
  intros A n l H. rewrite <- (firstn_skipn n l) in H.
  exact (NoDup_app_remove_r _ _ H).
Qed.

Lemma select_key_files_NoDup : forall tree,
    NoDup (PrepareData.select_key_files tree).
Proof.
  intros tree. rewrite select_key_files_eq.
  apply NoDup_firstn. apply add_new_NoDup. constructor.
Qed.

(** X1. The selection of the dataset path never has more than ten paths and
    never holds a path twice, whatever the tree. *)
Theorem select_key_files_capped_and_distinct :
  forall tree,
    len (PrepareData.select_key_files tree) <= 10
    /\ NoDup (PrepareData.select_key_files tree).
Proof.
  intros tree. split; [|apply select_key_files_NoDup].
  rewrite select_key_files_eq. unfold len.
  pose proof (firstn_le_length 10
    (fold_left add_new (important_paths tree ++ code_paths tree) [])). lia.
Qed.





(** X3. Manifests take precedence: a path that is selected without being
    the path of a blob with an important name is selected only together
    with all the paths of such blobs. *)
Theorem important_paths_selected_first :
  forall tree p q,
    In p (PrepareData.select_key_files tree) ->
    ~ In p (important_paths tree) ->
    In q (important_paths tree) ->
    In q (PrepareData.select_key_files tree).
Proof.
  intros tree p q Hp Hnp Hq. rewrite select_key_files_eq in *.
  rewrite fold_left_app in *.
  destruct (add_new_prefix (code_paths tree)
              (fold_left add_new (important_paths tree) []))
    as [added [E Hadd]].
  rewrite E in *.
  assert (Hq' : In q (fold_left add_new (important_paths tree) [])).
  { apply add_new_In. right. exact Hq. }
  destruct (Nat.le_gt_cases 10
              (length (fold_left add_new (important_paths tree) [])))
    as [Hlen|Hlen].
  - exfalso. rewrite firstn_app in Hp.
    replace (10 - length (fold_left add_new (important_paths tree) []))%nat
      with 0%nat in Hp by lia.
    rewrite firstn_O, app_nil_r in Hp. apply firstn_incl in Hp.
    apply add_new_In in Hp. destruct Hp as [[]|Hp]. contradiction.
  - rewrite firstn_app. apply in_or_app. left.
    rewrite firstn_all2 by lia. exact Hq'.
Qed.

Lemma important_paths_selected_first_witness :
  In (lit "Makefile") (PrepareData.select_key_files mixed_tree).
Proof.
  apply (important_paths_selected_first mixed_tree (lit "main.py")).
  - apply mem_In. vm_compute. reflexivity.
  - apply mem_false_not_In. vm_compute. reflexivity.
  - apply mem_In. vm_compute. reflexivity.
Defined.

(** X4. The selections of the two scans never have more than ten paths; on
    a tree, or a list of files, without a repeated path they hold no path
    twice. *)
Theorem scan_selections_capped :
  forall tree files,
    len (Inference.remote_key_files tree) <= 10
    /\ len (Inference.local_key_files files) <= 10
    /\ (NoDup (map path tree) -> NoDup (Inference.remote_key_files tree))
    /\ (NoDup files -> NoDup (Inference.local_key_files files)).
Proof.
  assert (Hcap : forall t, len (Inference.remote_key_files t) <= 10).
  { intros t. unfold Inference.remote_key_files.
    rewrite slice_to_firstn by lia. unfold len.
    match goal with |- context [firstn ?n ?l] =>
      pose proof (firstn_le_length n l) end. lia. }
  assert (Hnd : forall t, NoDup (map path t) ->
                          NoDup (Inference.remote_key_files t)).
  { intros t H. rewrite <- (selections_agree t H).
    apply select_key_files_NoDup. }
  intros tree files. split; [apply Hcap|]. split; [|split].
  - rewrite local_selection_is_remote. apply Hcap.
  - apply Hnd.
  - intros H. rewrite local_selection_is_remote. apply Hnd.
    rewrite map_map. cbn [path blob]. rewrite map_id. exact H.
Qed.

Lemma scan_selections_capped_witness :
  NoDup (Inference.remote_key_files mixed_tree)
  /\ NoDup (Inference.local_key_files [lit "a.py"; lit "Makefile"]).
Proof.
  destruct (scan_selections_capped mixed_tree [lit "a.py"; lit "Makefile"])
    as [_ [_ [H1 H2]]].
  split.
  - apply H1. repeat constructor; simpl; intuition discriminate.
  - apply H2. repeat constructor; simpl; intuition discriminate.
Defined.

(** * More on the snippet budget *)

Lemma loop_over_budget : forall read key_files snippets total_chars,
    6000 <= total_chars ->
    Inference.snippets_loop read key_files snippets total_chars
    = (snippets, total_chars).
Proof.
  intros read key_files snippets total_chars H.
  destruct key_files as [|f rest]; simpl; [reflexivity|].
  destruct (Z.leb_spec Inference.MAX_TOTAL_CODE_CHARS total_chars) as [_|C];
    [reflexivity|].
  unfold Inference.MAX_TOTAL_CODE_CHARS in C. lia.
Qed.

Lemma loop_snippets_acc : forall read key_files snippets total_chars,
    Inference.snippets_loop read key_files snippets total_chars
    = (snippets ++ fst (Inference.snippets_loop read key_files [] total_chars),
       snd (Inference.snippets_loop read key_files [] total_chars)).
Proof.
  intros read key_files.
  induction key_files as [|f rest IH]; intros snippets total_chars; simpl.
  - rewrite app_nil_r. reflexivity.
  - destruct (Inference.MAX_TOTAL_CODE_CHARS <=? total_chars).
    + simpl. rewrite app_nil_r. reflexivity.
    + destruct (read f) as [text|]; [|apply IH].
      rewrite IH. rewrite (IH [_]). simpl. rewrite <- app_assoc. reflexivity.
Qed.

Lemma loop_skips_failed_reads : forall read key_files snippets total_chars,
    Inference.snippets_loop read key_files snippets total_chars
    = Inference.snippets_loop read (filter (readable read) key_files)
                              snippets total_chars.
Proof.
  intros read key_files.
  induction key_files as [|f rest IH]; intros snippets total_chars.
  - reflexivity.
  - cbn [filter]. unfold readable at 1.
    destruct (read f) as [text|] eqn:E.
    + simpl. rewrite E.
      destruct (Inference.MAX_TOTAL_CODE_CHARS <=? total_chars);
        [reflexivity|apply IH].
    + simpl. rewrite E.
      destruct (Z.leb_spec Inference.MAX_TOTAL_CODE_CHARS total_chars) as [H|H].
      * symmetry. apply loop_over_budget. exact H.
      * apply IH.
Qed.

Lemma readable_ext : forall read read' l,
    (forall p, read p = read' p) ->
    filter (readable read) l = filter (readable read') l.
Proof.
  intros read read' l H. apply filter_ext. intros p.
  unfold readable. rewrite H. reflexivity.
Qed.

(** X5. A file whose read or fetch fails leaves no trace: the budget loop
    gives the same snippets and the same total as on the selection without
    the paths that cannot be read, in the dataset path as in the scans. *)
Theorem failed_reads_leave_no_trace :
  forall net owner repo token (read : str -> option str) (paths : list str),
    PrepareData.snippets_loop net owner repo token paths [] 0
    = PrepareData.snippets_loop
        net owner repo token
        (filter (readable (fun p => PrepareData.get_file_content
                                      net owner repo p token)) paths) [] 0
    /\ Inference.snippets_loop read paths [] 0
       = Inference.snippets_loop read (filter (readable read) paths) [] 0.
Proof.
  intros. split.
  - rewrite !dataset_loop_is_scan_loop. apply loop_skips_failed_reads.
  - apply loop_skips_failed_reads.
Qed.

Lemma join_cons_not_nil : forall sep p rest,
    p <> [] -> join sep (p :: rest) <> [].
Proof.
  intros sep p rest Hp H. destruct rest; simpl in H.
  - contradiction.
  - apply app_eq_nil in H. destruct H. contradiction.
Qed.

Lemma loop_first_readable : forall read q rest text,
    read q = Some text ->
    fst (Inference.snippets_loop read (q :: rest) [] 0)
    = Inference.block q (slice_to Inference.MAX_FILE_CHARS text)
      :: fst (Inference.snippets_loop
                read rest [] (0 + len (slice_to Inference.MAX_FILE_CHARS text))).
Proof.
  intros read q rest text E.
  cbn [Inference.snippets_loop]. rewrite E.
  change (Inference.MAX_TOTAL_CODE_CHARS <=? 0) with false. cbv iota.
  rewrite loop_snippets_acc. reflexivity.
Qed.

Lemma scan_snippets_empty_iff : forall read paths,
    join [NEWLINE; NEWLINE] (fst (Inference.snippets_loop read paths [] 0)) = []
    <-> forall p, In p paths -> read p = None.
Proof.
  intros read paths. rewrite loop_skips_failed_reads. split.
  - intros H p Hp. destruct (read p) as [text|] eqn:E; [|reflexivity].
    exfalso.
    assert (Hin : In p (filter (readable read) paths)).
    { apply filter_In. split; [exact Hp|]. unfold readable. rewrite E.
      reflexivity. }
    destruct (filter (readable read) paths) as [|q rest] eqn:Ef; [destruct Hin|].
    assert (Hq : readable read q = true).
    { assert (Hq : In q (filter (readable read) paths))
        by (rewrite Ef; left; reflexivity).
      apply filter_In in Hq. tauto. }
    unfold readable in Hq.
    destruct (read q) as [tq|] eqn:Eq; [|discriminate].
    rewrite (loop_first_readable read q rest tq Eq) in H.
    revert H. apply join_cons_not_nil. discriminate.
  - intros H.
    assert (E : filter (readable read) paths = []).
    { clear -H. induction paths as [|p l IH]; [reflexivity|]. simpl.
      unfold readable at 1. rewrite (H p) by (left; reflexivity).
      apply IH. intros q Hq. apply H. right. exact Hq. }
    rewrite E. reflexivity.
Qed.

(** X6. The snippet string is empty exactly when none of the paths of the
    selection can be fetched, or read. *)
Theorem code_snippets_empty_iff :
  forall net owner repo token (read : str -> option str) (paths : list str),
    (PrepareData.build_code_snippets net owner repo paths token = []
     <-> forall p, In p paths ->
                   PrepareData.get_file_content net owner repo p token = None)
    /\ (Inference.local_snippets read paths = []
        <-> forall p, In p paths -> read p = None)
    /\ (Inference.remote_snippets net owner repo
                                  (Inference.remote_headers token) paths = []
        <-> forall p, In p paths ->
                      Inference.download net owner repo
                                         (Inference.remote_headers token) p
                      = None).
Proof.
  intros. split; [|split].
  - unfold PrepareData.build_code_snippets. rewrite dataset_loop_is_scan_loop.
    apply scan_snippets_empty_iff.
  - apply scan_snippets_empty_iff.
  - apply scan_snippets_empty_iff.
Qed.

Lemma code_snippets_empty_iff_witness :
  PrepareData.build_code_snippets only_b_net (lit "o") (lit "r")
                                  [lit "a.py"; lit "c.py"] None = []
  /\ PrepareData.get_file_content only_b_net (lit "o") (lit "r")
                                  (lit "b.py") None <> None.
Proof.
  split.
  - apply (code_snippets_empty_iff only_b_net (lit "o") (lit "r") None
                                   (fun _ => None)).
    intros p [H|[H|[]]]; subst p; reflexivity.
  - vm_compute. discriminate.
Defined.

Lemma truncated_size_nonneg : forall read l, 0 <= truncated_size read l.
Proof.
  intros read l. induction l as [|p l IH]; simpl; [lia|].
  destruct (read p); unfold len; lia.
Qed.

Lemma loop_stops_at_budget : forall read l l' snippets total_chars,
    6000 <= total_chars + truncated_size read l ->
    Inference.snippets_loop read (l ++ l') snippets total_chars
    = Inference.snippets_loop read l snippets total_chars.
Proof.
  intros read l l'.
  induction l as [|f rest IH]; intros snippets total_chars H.
  - simpl in H. rewrite !loop_over_budget by lia. reflexivity.
  - simpl in *.
    destruct (Inference.MAX_TOTAL_CODE_CHARS <=? total_chars); [reflexivity|].
    destruct (read f) as [text|]; apply IH.
    + unfold Inference.MAX_FILE_CHARS. lia.
    + exact H.
Qed.

(** X7. Once the files read so far, each cut to 1500 characters, add up to
    6000 characters or more, the rest of the selection has no effect on
    the snippets. *)
Theorem files_after_the_budget_are_ignored :
  forall net owner repo token (read : str -> option str) (l l' : list str),
    (6000 <= truncated_size read l ->
     Inference.snippets_loop read (l ++ l') [] 0
     = Inference.snippets_loop read l [] 0)
    /\ (6000 <= truncated_size
                  (fun p => PrepareData.get_file_content net owner repo p token) l ->
        PrepareData.build_code_snippets net owner repo (l ++ l') token
        = PrepareData.build_code_snippets net owner repo l token).
Proof.
  intros. split; intros H.
  - apply loop_stops_at_budget. lia.
  - unfold PrepareData.build_code_snippets.
    rewrite !dataset_loop_is_scan_loop, loop_stops_at_budget by lia.
    reflexivity.
Qed.

Lemma files_after_the_budget_are_ignored_witness :
  PrepareData.build_code_snippets (same_file_net 1500) (lit "o") (lit "r")
                                  (four_files ++ [lit "e.py"]) None
  = PrepareData.build_code_snippets (same_file_net 1500) (lit "o") (lit "r")
                                    four_files None.
Proof.
  destruct (files_after_the_budget_are_ignored
              (same_file_net 1500) (lit "o") (lit "r") None (fun _ => None)
              four_files [lit "e.py"]) as [_ H].
  apply H. vm_compute. discriminate.
Defined.

Lemma loop_under_budget : forall read l snippets total_chars,
    total_chars + truncated_size read l < 6000 ->
    Inference.snippets_loop read l snippets total_chars
    = (snippets ++ blocks_of read l, total_chars + truncated_size read l).
Proof.
  intros read l.
  induction l as [|f rest IH]; intros snippets total_chars H.
  - simpl. rewrite app_nil_r, Z.add_0_r. reflexivity.
  - simpl in *. pose proof (truncated_size_nonneg read rest) as Hn.
    destruct (Z.leb_spec Inference.MAX_TOTAL_CODE_CHARS total_chars) as [C|_].
    + exfalso. unfold Inference.MAX_TOTAL_CODE_CHARS in C.
      destruct (read f); unfold len in *; lia.
    + destruct (read f) as [text|].
      * rewrite IH by (unfold Inference.MAX_FILE_CHARS; lia).
        unfold Inference.MAX_FILE_CHARS. rewrite <- app_assoc.
        f_equal. lia.
      * apply IH. exact H.
Qed.

(** X8. When the files of the selection, each cut to 1500 characters, stay
    below 6000 characters together, every file that can be read has its
    block in the snippets, in the order of the selection, and the total is
    their cumulative size. *)
Theorem under_budget_nothing_is_dropped :
  forall net owner repo token (read : str -> option str) (paths : list str),
    (truncated_size read paths < 6000 ->
     Inference.snippets_loop read paths [] 0
     = (blocks_of read paths, truncated_size read paths))
    /\ (truncated_size
          (fun p => PrepareData.get_file_content net owner repo p token) paths
        < 6000 ->
        PrepareData.build_code_snippets net owner repo paths token
        = join [NEWLINE; NEWLINE]
               (blocks_of (fun p => PrepareData.get_file_content
                                      net owner repo p token) paths)).
Proof.
  intros. split; intros H.
  - rewrite loop_under_budget by lia. reflexivity.
  - unfold PrepareData.build_code_snippets.
    rewrite dataset_loop_is_scan_loop, loop_under_budget by lia.
    reflexivity.
Qed.

Lemma under_budget_nothing_is_dropped_witness :
  PrepareData.build_code_snippets only_b_net (lit "o") (lit "r")
                                  [lit "a.py"; lit "b.py"] None
  = Inference.block (lit "b.py") (letters 20).
Proof.
  destruct (under_budget_nothing_is_dropped
              only_b_net (lit "o") (lit "r") None (fun _ => None)
              [lit "a.py"; lit "b.py"]) as [_ H].
  rewrite H; [reflexivity|vm_compute; reflexivity].
Defined.

(** * The order of the tree *)

Lemma str_leb_antisym : forall a b,
    str_leb a b = true -> str_leb b a = true -> a = b.
Proof.
  intros a. induction a as [|x a IH]; intros b Hab Hba.
  - destruct b; [reflexivity|discriminate].
  - destruct b as [|y b]; [discriminate|]. simpl in *.
    destruct (N.ltb_spec x y) as [Hxy|Hxy].
    + destruct (N.ltb_spec y x) as [Hyx|Hyx]; [lia|].
      destruct (N.ltb_spec x y); [discriminate|lia].
    + destruct (N.ltb_spec y x) as [Hyx|Hyx]; [discriminate|].
      assert (x = y) by lia. subst y. f_equal.
      destruct (N.ltb_spec x x); [lia|]. apply IH; assumption.
Qed.

Lemma str_leb_trans : forall a b c,
    str_leb a b = true -> str_leb b c = true -> str_leb a c = true.
Proof.
  intros a. induction a as [|x a IH]; intros b c Hab Hbc.
  - reflexivity.
  - destruct b as [|y b]; [discriminate|].
    destruct c as [|z c]; [discriminate|]. simpl in *.
    destruct (N.ltb_spec x y) as [Hxy|Hxy].
    + destruct (N.ltb_spec y z) as [Hyz|Hyz].
      * destruct (N.ltb_spec x z); [reflexivity|lia].
      * destruct (N.ltb_spec z y) as [Hzy|Hzy]; [discriminate|].
        destruct (N.ltb_spec x z); [reflexivity|lia].
    + destruct (N.ltb_spec y x) as [Hyx|Hyx]; [discriminate|].
      assert (x = y) by lia. subst y.
      destruct (N.ltb_spec x z) as [Hxz|Hxz]; [reflexivity|].
      destruct (N.ltb_spec z x) as [Hzx|Hzx]; [discriminate|].
      apply (IH b c); assumption.
Qed.

Lemma str_leb_false_strict : forall a b c,
    str_leb a b = false -> str_leb c b = true -> str_leb a c = false.
Proof.
  intros a b c Hab Hcb. destruct (str_leb a c) eqn:E; [|reflexivity].
  rewrite (str_leb_trans a c b E Hcb) in Hab. discriminate.
Qed.

Lemma insert_sorted_comm : forall x y l,
    insert_sorted x (insert_sorted y l) = insert_sorted y (insert_sorted x l).
Proof.
  intros x y l. induction l as [|z l IH].
  - simpl. destruct (str_leb x y) eqn:Exy; destruct (str_leb y x) eqn:Eyx;
      try reflexivity.
    + rewrite (str_leb_antisym x y Exy Eyx). reflexivity.
    + apply str_leb_total in Exy. congruence.
  - cbn [insert_sorted].
    destruct (str_leb y z) eqn:Eyz; destruct (str_leb x z) eqn:Exz;
      cbn [insert_sorted]; rewrite ?Eyz, ?Exz.
    + destruct (str_leb x y) eqn:Exy; destruct (str_leb y x) eqn:Eyx;
        rewrite ?Eyz, ?Exz; try reflexivity.
      * rewrite (str_leb_antisym x y Exy Eyx). reflexivity.
      * apply str_leb_total in Exy. congruence.
    + rewrite (str_leb_false_strict x z y Exz Eyz). reflexivity.
    + rewrite (str_leb_false_strict y z x Eyz Exz). reflexivity.
    + rewrite IH. reflexivity.
Qed.

(** [sorted] gives one result for all the orders of a list. *)
Lemma sorted_Permutation_eq : forall l l',
    Permutation l l' -> sorted l = sorted l'.
Proof.
  intros l l' H. unfold sorted.
  induction H as [|x l l' H IH|x y l|l l' l'' H1 IH1 H2 IH2]; simpl.
  - reflexivity.
  - rewrite IH. reflexivity.
  - apply insert_sorted_comm.
  - rewrite IH1. exact IH2.
Qed.

Lemma filter_Permutation : forall {A} (f : A -> bool) l l',
    Permutation l l' -> Permutation (filter f l) (filter f l').
Proof.
  intros A f l l' H.
  induction H as [|x l l' H IH|x y l|l l' l'' H1 IH1 H2 IH2]; simpl.
  - constructor.
  - destruct (f x); [constructor|]; exact IH.
  - destruct (f x); destruct (f y);
      try apply Permutation_refl. apply perm_swap.
  - exact (perm_trans IH1 IH2).
Qed.

(** X9. The file-tree string does not depend on the order in which the
    service lists the entries of the tree, in the dataset path and in the
    remote scan. *)
Theorem listing_ignores_tree_order :
  forall tree tree' max_entries,
    Permutation tree tree' ->
    PrepareData.build_file_tree_string tree max_entries
    = PrepareData.build_file_tree_string tree' max_entries
    /\ Inference.remote_file_tree tree = Inference.remote_file_tree tree'.
Proof.
  intros tree tree' max_entries H. split.
  - unfold PrepareData.build_file_tree_string, PrepareData.listed_paths.
    rewrite (sorted_Permutation_eq
               (map path (filter PrepareData.listed tree))
               (map path (filter PrepareData.listed tree'))); [reflexivity|].
    apply Permutation_map. apply filter_Permutation. exact H.
  - unfold Inference.remote_file_tree.
    rewrite (sorted_Permutation_eq
               (map path (filter Inference.remote_listed tree))
               (map path (filter Inference.remote_listed tree'))); [reflexivity|].
    apply Permutation_map. apply filter_Permutation. exact H.
Qed.

Lemma listing_ignores_tree_order_witness :
  PrepareData.build_file_tree_string small_tree 80
  = PrepareData.build_file_tree_string (rev small_tree) 80
  /\ Inference.remote_file_tree small_tree
     = Inference.remote_file_tree (rev small_tree).
Proof.
  apply listing_ignores_tree_order. apply Permutation_rev.
Defined.

(** X10. The result of the local scan does not depend on the order in which
    the walk meets the files. *)
Theorem local_scan_ignores_walk_order :
  forall repo_name read all_files all_files',
    Permutation all_files all_files' ->
    Inference.scan_files repo_name read all_files
    = Inference.scan_files repo_name read all_files'.
Proof.
  intros repo_name read all_files all_files' H. unfold Inference.scan_files.
  rewrite (sorted_Permutation_eq all_files all_files' H). reflexivity.
Qed.

Lemma local_scan_ignores_walk_order_witness :
  Inference.scan_files (lit "r") (fun _ => Some (letters 3))
                       [lit "b.py"; lit "a.py"]
  = Inference.scan_files (lit "r") (fun _ => Some (letters 3))
                         [lit "a.py"; lit "b.py"].
Proof.
  apply local_scan_ignores_walk_order. apply perm_swap.
Defined.

(** * The normalisation of a README *)

Lemma eat_bounded : forall ok k, bounded k -> bounded (Re.eat ok k).
Proof.
  intros ok k Hk s n H. unfold Re.eat in H.
  destruct s as [|x s]; [discriminate|].
  destruct (ok x); [|discriminate].
  destruct (k s) as [m|] eqn:E; [|discriminate].
  injection H as H. subst n. apply Hk in E. simpl. lia.
Qed.

Lemma lazy_dots_bounded : forall k, bounded k -> bounded (Re.lazy_dots k).
Proof.
  intros k Hk s. induction s as [|x s IH]; intros n H; simpl in H.
  - destruct (k []) as [m|] eqn:E; [|discriminate].
    injection H as H. subst n. exact (Hk _ _ E).
  - destruct (k (x :: s)) as [m|] eqn:E.
    + injection H as H. subst n. exact (Hk _ _ E).
    + destruct (Re.not_newline x); [|discriminate].
      destruct (Re.lazy_dots k s) as [m|] eqn:E'; [|discriminate].
      injection H as H. subst n. specialize (IH m eq_refl). simpl. lia.
Qed.

Lemma at_least_bounded : forall n c k,
    bounded k -> forall taken, bounded (Re.at_least n c k taken).
Proof.
  intros n c k Hk taken s. revert taken.
  induction s as [|x s IH]; intros taken r H; simpl in H.
  - destruct (n <=? taken)%nat; [exact (Hk _ _ H)|discriminate].
  - destruct (x =? c)%N.
    + destruct (Re.at_least n c k (S taken) s) as [m|] eqn:E.
      * injection H as H. subst r. apply IH in E. simpl. lia.
      * destruct (n <=? taken)%nat; [exact (Hk _ _ H)|discriminate].
    + destruct (n <=? taken)%nat; [exact (Hk _ _ H)|discriminate].
Qed.

(** A match is never longer than the text. *)
Lemma match_here_bounded : forall p, bounded (Re.match_here p).
Proof.
  intros p. induction p as [|a p IH].
  - intros s n H. injection H as H. subst n. lia.
  - destruct a; cbn [Re.match_here].
    + apply eat_bounded. exact IH.
    + apply eat_bounded. exact IH.
    + apply eat_bounded. exact IH.
    + apply lazy_dots_bounded. exact IH.
    + apply at_least_bounded. exact IH.
Qed.

(** The match of [c{n,}] alone is the whole run of [c], if it has [n]
    characters. *)
Lemma at_least_alone : forall n c taken s,
    Re.at_least n c (fun _ => Some O) taken s
    = if (n <=? taken + run c s)%nat then Some (run c s) else None.
Proof.
  intros n c taken s. revert taken.
  induction s as [|x s IH]; intros taken; simpl.
  - rewrite Nat.add_0_r. reflexivity.
  - destruct (x =? c)%N.
    + rewrite IH. replace (S taken + run c s)%nat
        with (taken + S (run c s))%nat by lia.
      destruct (Nat.leb_spec n (taken + S (run c s))); [reflexivity|].
      destruct (Nat.leb_spec n taken); [lia|reflexivity].
    + rewrite Nat.add_0_r. reflexivity.
Qed.

Lemma match_newlines : forall s,
    Re.match_here PrepareData.NEWLINES3 s
    = if (3 <=? run NEWLINE s)%nat then Some (run NEWLINE s) else None.
Proof.
  intros s. unfold PrepareData.NEWLINES3. cbn [Re.match_here].
  apply at_least_alone.
Qed.

(** A substitution whose replacement is no longer than any match does not
    lengthen the text. *)
Lemma sub_from_length : forall p repl,
    (forall s m, Re.match_here p s = Some m -> (length repl <= m)%nat) ->
    forall s skip,
      (skip <= length s)%nat ->
      (length (Re.sub_from p repl skip s) + skip <= length s)%nat.
Proof.
  intros p repl Hrepl s.
  induction s as [|x s IH]; intros skip Hskip; simpl in *.
  - lia.
  - destruct skip as [|k].
    + destruct (Re.match_here p (x :: s)) as [[|n]|] eqn:E.
      * simpl. specialize (IH O). lia.
      * pose proof (match_here_bounded p _ _ E) as Hb.
        pose proof (Hrepl _ _ E) as Hr. simpl in Hb.
        rewrite length_app. specialize (IH n). lia.
      * simpl. specialize (IH O). lia.
    + specialize (IH k). lia.
Qed.

Lemma sub_length : forall p repl s,
    (forall t m, Re.match_here p t = Some m -> (length repl <= m)%nat) ->
    (length (Re.sub p repl s) <= length s)%nat.
Proof.
  intros p repl s H. unfold Re.sub.
  pose proof (sub_from_length p repl H s O). lia.
Qed.

Lemma lstrip_length : forall s, (length (lstrip s) <= length s)%nat.
Proof.
  intros s. induction s as [|c s IH]; simpl; [lia|].
  destruct (isspace c); simpl; lia.
Qed.

Lemma strip_length : forall s, (length (strip s) <= length s)%nat.
Proof.
  intros s. unfold strip, rstrip. rewrite length_rev.
  pose proof (lstrip_length (rev (lstrip s))) as H.
  rewrite length_rev in H. pose proof (lstrip_length s). lia.
Qed.

Lemma clean_readme_length : forall readme,
    len (PrepareData.clean_readme readme) <= len readme.
Proof.
  intros readme. unfold PrepareData.clean_readme, len.
  pose proof (strip_length
                (Re.sub PrepareData.NEWLINES3 [NEWLINE; NEWLINE]
                   (Re.sub PrepareData.IMAGE []
                      (Re.sub PrepareData.LINKED_BADGE [] readme)))) as H1.
  pose proof (sub_length PrepareData.NEWLINES3 [NEWLINE; NEWLINE]
                (Re.sub PrepareData.IMAGE []
                   (Re.sub PrepareData.LINKED_BADGE [] readme))) as H2.
  pose proof (sub_length PrepareData.IMAGE []
                (Re.sub PrepareData.LINKED_BADGE [] readme)) as H3.
  pose proof (sub_length PrepareData.LINKED_BADGE [] readme) as H4.
  assert (Hnl : forall t m, Re.match_here PrepareData.NEWLINES3 t = Some m ->
                            (length [NEWLINE; NEWLINE] <= m)%nat).
  { intros t m E. rewrite match_newlines in E.
    destruct (Nat.leb_spec 3 (run NEWLINE t)); [|discriminate].
    injection E as E. subst m. simpl. lia. }
  specialize (H2 Hnl).
  specialize (H3 (fun _ _ _ => Nat.le_0_l _)).
  specialize (H4 (fun _ _ _ => Nat.le_0_l _)).
  lia.
Qed.

(** X11. Normalisation never lengthens a README, so a README whose raw text
    has fewer than 200 characters is rejected after normalisation, whatever
    it holds. *)
Theorem short_readme_is_rejected :
  forall readme : str,
    len (PrepareData.clean_readme readme) <= len readme
    /\ (len readme < 200 ->
        PrepareData.is_quality_readme (PrepareData.clean_readme readme) = false).
Proof.
  intros readme. pose proof (clean_readme_length readme) as H.
  split; [exact H|]. intros Hlen.
  unfold PrepareData.is_quality_readme.
  destruct (Z.ltb_spec (len (PrepareData.clean_readme readme)) 200);
    [reflexivity|lia].
Qed.

Lemma short_readme_is_rejected_witness :
  PrepareData.is_quality_readme (PrepareData.clean_readme BADGE_README) = false.
Proof.
  apply short_readme_is_rejected. vm_compute. reflexivity.
Defined.

Lemma startswith_triple : forall l,
    startswith TRIPLE l = (3 <=? run NEWLINE l)%nat.
Proof.
  intros l. unfold TRIPLE.
  destruct l as [|a l]; [reflexivity|]. cbn [startswith run].
  rewrite (N.eqb_sym NEWLINE a).
  destruct (a =? NEWLINE)%N; cbn [andb]; [|reflexivity].
  destruct l as [|b l]; [reflexivity|]. cbn [startswith run].
  rewrite (N.eqb_sym NEWLINE b).
  destruct (b =? NEWLINE)%N; cbn [andb]; [|reflexivity].
  destruct l as [|c l]; [reflexivity|]. cbn [startswith run].
  rewrite (N.eqb_sym NEWLINE c).
  destruct (c =? NEWLINE)%N; cbn [andb]; reflexivity.
Qed.

Lemma sub_from_skip : forall p repl s k,
    Re.sub_from p repl k s = Re.sub_from p repl O (skipn k s).
Proof.
  intros p repl s. induction s as [|x s IH]; intros k.
  - destruct k; reflexivity.
  - destruct k as [|k]; [reflexivity|]. simpl. apply IH.
Qed.

Lemma run_skipn : forall c s, run c (skipn (run c s) s) = O.
Proof.
  intros c s. induction s as [|x s IH]; [reflexivity|].
  simpl. destruct (x =? c)%N eqn:E; simpl; [exact IH|].
  rewrite E. reflexivity.
Qed.

Lemma collapse_long : forall s,
    (3 <= run NEWLINE s)%nat ->
    Re.sub PrepareData.NEWLINES3 [NEWLINE; NEWLINE] s
    = NEWLINE :: NEWLINE
      :: Re.sub PrepareData.NEWLINES3 [NEWLINE; NEWLINE]
                (skipn (run NEWLINE s) s).
Proof.
  intros s H. unfold Re.sub. destruct s as [|x s]; [simpl in H; lia|].
  cbn [Re.sub_from]. rewrite match_newlines.
  destruct (Nat.leb_spec 3 (run NEWLINE (x :: s))); [|lia].
  destruct (run NEWLINE (x :: s)) as [|m] eqn:E; [lia|].
  rewrite sub_from_skip. reflexivity.
Qed.

Lemma collapse_short : forall x s,
    (run NEWLINE (x :: s) < 3)%nat ->
    Re.sub PrepareData.NEWLINES3 [NEWLINE; NEWLINE] (x :: s)
    = x :: Re.sub PrepareData.NEWLINES3 [NEWLINE; NEWLINE] s.
Proof.
  intros x s H. unfold Re.sub. cbn [Re.sub_from]. rewrite match_newlines.
  destruct (Nat.leb_spec 3 (run NEWLINE (x :: s))); [lia|reflexivity].
Qed.

(** After the third substitution no run of newlines has more than two. *)
Lemma collapse_newlines : forall n s,
    (length s <= n)%nat ->
    contains TRIPLE (Re.sub PrepareData.NEWLINES3 [NEWLINE; NEWLINE] s) = false
    /\ run NEWLINE (Re.sub PrepareData.NEWLINES3 [NEWLINE; NEWLINE] s)
       = Nat.min (run NEWLINE s) 2.
Proof.
  intros n. induction n as [|n IH]; intros s Hlen.
  - destruct s; [|simpl in Hlen; lia]. split; reflexivity.
  - destruct s as [|x s]; [split; reflexivity|].
    destruct (Nat.le_gt_cases 3 (run NEWLINE (x :: s))) as [Hrun|Hrun].
    + rewrite (collapse_long _ Hrun).
      assert (Hshort : (length (skipn (run NEWLINE (x :: s)) (x :: s)) <= n)%nat).
      { rewrite length_skipn. cbn [length] in *. lia. }
      destruct (IH _ Hshort) as [Hc Hr].
      rewrite run_skipn in Hr. change (Nat.min 0 2) with 0%nat in Hr.
      set (o := Re.sub PrepareData.NEWLINES3 [NEWLINE; NEWLINE]
                       (skipn (run NEWLINE (x :: s)) (x :: s))) in *.
      remember (run NEWLINE (x :: s)) as r eqn:Er. clear Er.
      split.
      * cbn [contains]. rewrite !startswith_triple, Hc.
        cbn [run]. rewrite N.eqb_refl, Hr. reflexivity.
      * cbn [run]. rewrite N.eqb_refl, Hr. lia.
    + rewrite (collapse_short _ _ Hrun).
      assert (Hs : (length s <= n)%nat) by (simpl in Hlen; lia).
      destruct (IH s Hs) as [Hc Hr].
      set (o := Re.sub PrepareData.NEWLINES3 [NEWLINE; NEWLINE] s) in *.
      assert (Hrun' : run NEWLINE (x :: o) = Nat.min (run NEWLINE (x :: s)) 2).
      { cbn [run] in *. destruct (x =? NEWLINE)%N; [|reflexivity].
        rewrite Hr. lia. }
      split; [|exact Hrun'].
      cbn [contains]. rewrite startswith_triple, Hc, Hrun'.
      destruct (Nat.leb_spec 3 (Nat.min (run NEWLINE (x :: s)) 2));
        [lia|reflexivity].
Qed.

Lemma startswith_app : forall sub a t,
    startswith sub a = true -> startswith sub (a ++ t) = true.
Proof.
  intros sub. induction sub as [|c sub IH]; intros a t H; [reflexivity|].
  destruct a as [|x a]; [discriminate|]. simpl in *.
  apply andb_true_iff in H. destruct H as [H1 H2].
  rewrite H1. simpl. apply IH. exact H2.
Qed.

Lemma contains_app_r : forall sub a t,
    contains sub a = true -> contains sub (a ++ t) = true.
Proof.
  intros sub a t. induction a as [|x a IH]; intros H.
  - simpl in H. rewrite orb_false_r in H.
    destruct sub; [|discriminate]. destruct t; reflexivity.
  - cbn [contains app] in *. apply orb_true_iff in H. apply orb_true_iff.
    destruct H as [H|H].
    + left. exact (startswith_app sub (x :: a) t H).
    + right. apply IH. exact H.
Qed.

Lemma contains_app_l : forall sub w s,
    contains sub s = true -> contains sub (w ++ s) = true.
Proof.
  intros sub w s H. induction w as [|x w IH]; [exact H|].
  cbn [contains app]. rewrite IH. apply orb_true_r.
Qed.

Lemma lstrip_suffix : forall s, exists w, s = w ++ lstrip s.
Proof.
  intros s. induction s as [|c s [w IH]].
  - exists []. reflexivity.
  - simpl. destruct (isspace c).
    + exists (c :: w). simpl. f_equal. exact IH.
    + exists []. reflexivity.
Qed.

Lemma rstrip_prefix : forall s, exists w, s = rstrip s ++ w.
Proof.
  intros s. unfold rstrip. destruct (lstrip_suffix (rev s)) as [w H].
  exists (rev w). rewrite <- rev_app_distr, <- H, rev_involutive. reflexivity.
Qed.

Lemma contains_strip : forall sub s,
    contains sub s = false -> contains sub (strip s) = false.
Proof.
  intros sub s H. destruct (contains sub (strip s)) eqn:E; [|reflexivity].
  unfold strip in E.
  destruct (rstrip_prefix (lstrip s)) as [w Hw].
  destruct (lstrip_suffix s) as [v Hv].
  apply (contains_app_r sub _ w) in E. rewrite <- Hw in E.
  apply (contains_app_l sub v) in E. rewrite <- Hv in E. congruence.
Qed.

Lemma lstrip_head : forall s c rest,
    lstrip s = c :: rest -> isspace c = false.
Proof.
  intros s. induction s as [|x s IH]; intros c rest H; [discriminate|].
  simpl in H. destruct (isspace x) eqn:E; [exact (IH _ _ H)|].
  injection H as H _. subst c. exact E.
Qed.

Lemma lstrip_snoc : forall u h,
    isspace h = false -> lstrip (u ++ [h]) = lstrip u ++ [h].
Proof.
  intros u h H. induction u as [|c u IH]; simpl.
  - rewrite H. reflexivity.
  - destruct (isspace c); [exact IH|reflexivity].
Qed.

Lemma strip_head : forall s c rest,
    strip s = c :: rest -> isspace c = false.
Proof.
  intros s c rest H. unfold strip, rstrip in H.
  destruct (lstrip s) as [|h t] eqn:E; [discriminate|].
  pose proof (lstrip_head s h t E) as Hh.
  simpl in H. rewrite (lstrip_snoc _ _ Hh), rev_app_distr in H.
  injection H as H _. subst c. exact Hh.
Qed.

Lemma strip_last : forall s front c,
    strip s = front ++ [c] -> isspace c = false.
Proof.
  intros s front c H. unfold strip, rstrip in H.
  apply (f_equal (@rev char)) in H.
  rewrite rev_involutive, rev_app_distr in H. simpl in H.
  exact (lstrip_head _ _ _ H).
Qed.

(** X12. A normalised README has no run of three newlines, and neither
    starts nor ends with white space. *)
Theorem clean_readme_shape :
  forall readme,
    let out := PrepareData.clean_readme readme in
    contains TRIPLE out = false
    /\ (forall c rest, out = c :: rest -> isspace c = false)
    /\ (forall front c, out = front ++ [c] -> isspace c = false).
Proof.
  intros readme out. unfold out, PrepareData.clean_readme. split; [|split].
  - apply contains_strip.
    exact (proj1 (collapse_newlines _ _ (Nat.le_refl _))).
  - apply strip_head.
  - apply strip_last.
Qed.

Lemma clean_readme_shape_witness :
  exists rest, PrepareData.clean_readme BADGE_README = HASH :: rest
               /\ isspace HASH = false.
Proof.
  destruct (PrepareData.clean_readme BADGE_README) as [|c rest] eqn:E.
  - exfalso. vm_compute in E. discriminate.
  - assert (Hc : c = HASH).
    { pose proof E as E'. vm_compute in E'. injection E' as E1 _.
      symmetry. exact E1. }
    subst c. exists rest. split; [reflexivity|].
    destruct (clean_readme_shape BADGE_README) as [_ [H _]].
    apply (H HASH rest). exact E.
Defined.

Lemma sub_no_match : forall p repl (P : str -> Prop),
    (forall x t, P (x :: t) -> P t) ->
    (forall t, P t -> Re.match_here p t = None) ->
    forall s, P s -> Re.sub p repl s = s.
Proof.
  intros p repl P Htail Hnone s. unfold Re.sub.
  induction s as [|x s IH]; intros Hs; [reflexivity|].
  cbn [Re.sub_from]. rewrite (Hnone _ Hs). f_equal.
  apply IH. exact (Htail _ _ Hs).
Qed.

Lemma not_In_tail : forall (c x : char) (t : str),
    ~ In c (x :: t) -> ~ In c t.
Proof. intros c x t H Hin. apply H. right. exact Hin. Qed.

Lemma badge_needs_bang : forall t,
    ~ In BANG t -> Re.match_here PrepareData.LINKED_BADGE t = None.
Proof.
  intros t H.
  assert (E : PrepareData.LINKED_BADGE
              = Re.Chr 91%N :: Re.Chr BANG
                :: tl (tl PrepareData.LINKED_BADGE)) by reflexivity.
  rewrite E.
  destruct t as [|x [|y t]]; cbn [Re.match_here Re.eat]; [reflexivity| |].
  - destruct (91 =? x)%N; reflexivity.
  - destruct (91 =? x)%N; [|reflexivity].
    destruct (N.eqb_spec BANG y) as [Ey|Ey]; [|reflexivity].
    exfalso. apply H. right. left. symmetry. exact Ey.
Qed.

Lemma image_needs_bang : forall t,
    ~ In BANG t -> Re.match_here PrepareData.IMAGE t = None.
Proof.
  intros t H.
  assert (E : PrepareData.IMAGE = Re.Chr BANG :: tl PrepareData.IMAGE)
    by reflexivity.
  rewrite E.
  destruct t as [|x t]; cbn [Re.match_here Re.eat]; [reflexivity|].
  destruct (N.eqb_spec BANG x) as [Ex|Ex]; [|reflexivity].
  exfalso. apply H. left. symmetry. exact Ex.
Qed.

(** X13. A README without an exclamation mark, without a run of three
    newlines and without white space at its ends is left as it is. *)
Theorem plain_readme_unchanged :
  forall readme,
    ~ In BANG readme ->
    contains TRIPLE readme = false ->
    strip readme = readme ->
    PrepareData.clean_readme readme = readme.
Proof.
  intros readme Hbang Htriple Hstrip. unfold PrepareData.clean_readme.
  rewrite (sub_no_match PrepareData.LINKED_BADGE [] (fun t => ~ In BANG t)
             (not_In_tail BANG) badge_needs_bang readme Hbang).
  rewrite (sub_no_match PrepareData.IMAGE [] (fun t => ~ In BANG t)
             (not_In_tail BANG) image_needs_bang readme Hbang).
  rewrite (sub_no_match PrepareData.NEWLINES3 [NEWLINE; NEWLINE]
             (fun t => contains TRIPLE t = false)).
  - exact Hstrip.
  - intros x t H. cbn [contains] in H. apply orb_false_iff in H. tauto.
  - intros t H. rewrite match_newlines.
    destruct t as [|x t]; [reflexivity|].
    cbn [contains] in H. apply orb_false_iff in H. destruct H as [H _].
    rewrite startswith_triple in H. rewrite H. reflexivity.
  - exact Htriple.
Qed.

Lemma not_In_check : forall (c : char) (s : str),
    existsb (N.eqb c) s = false -> ~ In c s.
Proof.
  intros c s H Hin.
  assert (E : existsb (N.eqb c) s = true).
  { apply existsb_exists. exists c. split; [exact Hin|apply N.eqb_refl]. }
  congruence.
Qed.

Lemma plain_readme_unchanged_witness :
  PrepareData.clean_readme (strip README_TEXT) = strip README_TEXT.
Proof.
  apply plain_readme_unchanged.
  - apply not_In_check. vm_compute. reflexivity.
  - vm_compute. reflexivity.
  - vm_compute. reflexivity.
Defined.

(** * More on the structural score *)

Lemma split_length : forall sep s,
    length (split sep s) = S (count_occ N.eq_dec s sep).
Proof.
  intros sep s. induction s as [|c s IH]; [reflexivity|].
  cbn [split count_occ].
  destruct (N.eqb_spec c sep) as [E|E].
  - destruct (N.eq_dec c sep) as [_|C]; [|contradiction].
    simpl. rewrite IH. reflexivity.
  - destruct (N.eq_dec c sep) as [C|_]; [contradiction|].
    destruct (split sep s) as [|w ws]; [discriminate|exact IH].
Qed.

Lemma filter_disjoint_length : forall {A} (f g : A -> bool) l,
    (forall x, f x = true -> g x = false) ->
    (length (filter f l) + length (filter g l) <= length l)%nat.
Proof.
  intros A f g l H. induction l as [|x l IH]; simpl; [lia|].
  destruct (f x) eqn:Ef.
  - rewrite (H x Ef). simpl. lia.
  - destruct (g x); simpl; lia.
Qed.

Lemma heading_is_no_bullet : forall l,
    Evaluate.is_heading l = true -> Evaluate.is_bullet l = false.
Proof.
  intros l. unfold Evaluate.is_heading, Evaluate.is_bullet, Evaluate.BULLET.
  change (lit "#") with [HASH]. change (lit "-") with [45%N].
  change (lit "*") with [42%N].
  destruct (strip l) as [|c r]; [discriminate|].
  cbn [startswith existsb]. rewrite !andb_true_r, orb_false_r.
  intros H. apply N.eqb_eq in H. subst c. reflexivity.
Qed.

Lemma simple_match_length : forall p s n,
    simple p = true -> Re.match_here p s = Some n -> n = length p.
Proof.
  intros p. induction p as [|a p IH]; intros s n Hp H.
  - injection H as H. subst n. reflexivity.
  - cbn [simple forallb] in Hp. apply andb_true_iff in Hp.
    destruct Hp as [Ha Hp].
    assert (Heat : forall ok, Re.eat ok (Re.match_here p) s = Some n ->
                              n = length (a :: p)).
    { intros ok E. unfold Re.eat in E. destruct s as [|x s]; [discriminate|].
      destruct (ok x); [|discriminate].
      destruct (Re.match_here p s) as [m|] eqn:Em; [|discriminate].
      injection E as E. subst n. rewrite (IH s m Hp Em). reflexivity. }
    destruct a; cbn [Re.match_here] in H; try discriminate Ha;
      exact (Heat _ H).
Qed.

Lemma simple_match_app : forall p s t n,
    simple p = true ->
    Re.match_here p s = Some n -> Re.match_here p (s ++ t) = Some n.
Proof.
  intros p. induction p as [|a p IH]; intros s t n Hp H.
  - exact H.
  - cbn [simple forallb] in Hp. apply andb_true_iff in Hp.
    destruct Hp as [Ha Hp].
    assert (Heat : forall ok, Re.eat ok (Re.match_here p) s = Some n ->
                              Re.eat ok (Re.match_here p) (s ++ t) = Some n).
    { intros ok E. unfold Re.eat in *. destruct s as [|x s]; [discriminate|].
      cbn [app]. destruct (ok x); [|discriminate].
      destruct (Re.match_here p s) as [m|] eqn:Em; [|discriminate].
      rewrite (IH s t m Hp Em). exact E. }
    destruct a; cbn [Re.match_here] in *; try discriminate Ha;
      exact (Heat _ H).
Qed.

(** Each match takes at least [m] characters: so do all of them together. *)
Lemma findall_from_bound : forall p (m : nat),
    (forall s n, Re.match_here p s = Some n -> (m <= n)%nat) ->
    forall s skip,
      (skip <= length s)%nat ->
      0 <= Re.findall_from p skip s
      /\ Z.of_nat m * Re.findall_from p skip s + Z.of_nat skip
         <= Z.of_nat (length s).
Proof.
  intros p m Hm s. induction s as [|x s IH]; intros skip Hskip.
  - simpl in *. lia.
  - cbn [Re.findall_from length] in *. destruct skip as [|k].
    + destruct (Re.match_here p (x :: s)) as [[|n]|] eqn:E.
      * destruct (IH O) as [H1 H2]; lia.
      * pose proof (match_here_bounded p _ _ E) as Hb.
        pose proof (Hm _ _ E) as Hle. cbn [length] in Hb.
        destruct (IH n) as [H1 H2]; [lia|]. split; lia.
      * destruct (IH O) as [H1 H2]; lia.
    + destruct (IH k) as [H1 H2]; [lia|]. lia.
Qed.

(** X14. The number of lines of a text is one more than its number of
    newlines; no line counts both as a heading and as a bullet point, so the
    two counts together stay within the number of lines; and every counted
    code block stands for two fences of three characters. *)
Theorem structural_score_counts :
  forall text : str,
    let sc := Evaluate.structural_score text in
    Evaluate.total_lines sc = 1 + Z.of_nat (count_occ N.eq_dec text NEWLINE)
    /\ 0 <= Evaluate.num_headings sc
    /\ 0 <= Evaluate.num_bullet_points sc
    /\ Evaluate.num_headings sc + Evaluate.num_bullet_points sc
       <= Evaluate.total_lines sc
    /\ 0 <= Evaluate.num_code_blocks sc
    /\ 6 * Evaluate.num_code_blocks sc <= Evaluate.total_length sc.
Proof.
  intros text sc. unfold sc, Evaluate.structural_score.
  cbn [Evaluate.total_lines Evaluate.num_headings Evaluate.num_bullet_points
       Evaluate.num_code_blocks Evaluate.total_length].
  pose proof (filter_disjoint_length Evaluate.is_heading Evaluate.is_bullet
                (split NEWLINE text) heading_is_no_bullet) as Hd.
  assert (Hf : forall s n, Re.match_here Evaluate.FENCE s = Some n ->
                           (3 <= n)%nat).
  { intros s n E. rewrite (simple_match_length Evaluate.FENCE s n eq_refl E).
    apply Nat.le_refl. }
  destruct (findall_from_bound Evaluate.FENCE 3 Hf text O (Nat.le_0_l _))
    as [Hf0 Hf3].
  unfold Re.findall_len, len. rewrite split_length.
  pose proof (Z.div_pos (Re.findall_from Evaluate.FENCE 0 text) 2 Hf0
                        ltac:(lia)) as Hq0.
  pose proof (Z.mul_div_le (Re.findall_from Evaluate.FENCE 0 text) 2
                           ltac:(lia)) as Hq.
  rewrite split_length in Hd.
  repeat split; try lia.
Qed.

Lemma match_alt_app : forall alts s t n,
    forallb simple alts = true ->
    Re.match_alt alts s = Some n ->
    exists n', Re.match_alt alts (s ++ t) = Some n'.
Proof.
  intros alts. induction alts as [|p alts IH]; intros s t n Ha H.
  - discriminate.
  - cbn [forallb] in Ha. apply andb_true_iff in Ha. destruct Ha as [Hp Ha].
    cbn [Re.match_alt] in *.
    destruct (Re.match_here p s) as [m|] eqn:E.
    + rewrite (simple_match_app p s t m Hp E). exists m. reflexivity.
    + destruct (Re.match_here p (s ++ t)) as [m|]; [exists m; reflexivity|].
      exact (IH s t n Ha H).
Qed.

Lemma search_app_r : forall alts s t,
    forallb simple alts = true ->
    Re.search alts s = true -> Re.search alts (s ++ t) = true.
Proof.
  intros alts s t Ha. induction s as [|x s IH]; intros H.
  - cbn [Re.search] in H.
    destruct (Re.match_alt alts []) as [n|] eqn:E; [|discriminate].
    destruct (match_alt_app alts [] t n Ha E) as [n' E'].
    cbn [app] in *. destruct t; cbn [Re.search]; rewrite E'; reflexivity.
  - cbn [Re.search app] in *.
    destruct (Re.match_alt alts (x :: s)) as [n|] eqn:E.
    + destruct (match_alt_app alts (x :: s) t n Ha E) as [n' E'].
      cbn [app] in E'. rewrite E'. reflexivity.
    + destruct (Re.match_alt alts (x :: s ++ t)); [reflexivity|].
      apply IH. exact H.
Qed.

Lemma search_app_l : forall alts w s,
    Re.search alts s = true -> Re.search alts (w ++ s) = true.
Proof.
  intros alts w s H. induction w as [|x w IH]; [exact H|].
  cbn [Re.search app]. destruct (Re.match_alt alts (x :: w ++ s));
    [reflexivity|exact IH].
Qed.

(** X15. Text around a text never hides a section: when a text is found to
    have an install section, or a usage section, so is every text that
    holds it. *)
Theorem sections_survive_surrounding_text :
  forall before text after : str,
    (Evaluate.has_install_section (Evaluate.structural_score text) = true ->
     Evaluate.has_install_section
       (Evaluate.structural_score (before ++ text ++ after)) = true)
    /\ (Evaluate.has_usage_section (Evaluate.structural_score text) = true ->
        Evaluate.has_usage_section
          (Evaluate.structural_score (before ++ text ++ after)) = true).
Proof.
  intros before text after. unfold Evaluate.structural_score.
  cbn [Evaluate.has_install_section Evaluate.has_usage_section].
  split; intros H; apply search_app_l; apply search_app_r;
    try reflexivity; exact H.
Qed.

Lemma sections_survive_surrounding_text_witness :
  Evaluate.has_install_section
    (Evaluate.structural_score
       (lit "## " ++ lit "Getting-Started" ++ lit " with it")) = true.
Proof.
  destruct (sections_survive_surrounding_text
              (lit "## ") (lit "Getting-Started") (lit " with it")) as [H _].
  apply H. vm_compute. reflexivity.
Defined.

(** * The argument of the remote scan *)

Lemma split_not_nil : forall sep s, split sep s <> [].
Proof.
  intros sep s H. pose proof (split_length sep s) as L.
  rewrite H in L. discriminate.
Qed.

Lemma join_cons_cons : forall sep (c : char) w ws,
    join sep ((c :: w) :: ws) = c :: join sep (w :: ws).
Proof. intros sep c w ws. destruct ws; reflexivity. Qed.

(** Joining the pieces of a split gives the text back. *)
Lemma join_split : forall sep s, join [sep] (split sep s) = s.
Proof.
  intros sep s. induction s as [|c s IH]; [reflexivity|].
  cbn [split]. destruct (N.eqb_spec c sep) as [E|E].
  - subst c. destruct (split sep s) as [|w ws] eqn:Es.
    + exfalso. exact (split_not_nil sep s Es).
    + transitivity (sep :: join [sep] (w :: ws)); [reflexivity|].
      f_equal. exact IH.
  - destruct (split sep s) as [|w ws] eqn:Es.
    + exfalso. exact (split_not_nil sep s Es).
    + rewrite join_cons_cons. f_equal. exact IH.
Qed.

(** X16. The remote scan raises [ValueError] exactly when its argument does
    not hold one slash; with one slash, the argument is the owner, the slash
    and the repository that the scan asks the tree of. *)
Theorem remote_scan_argument :
  forall net owner_repo token,
    (Inference.scan_github_repo net owner_repo token
     = Inference.Raise Inference.ValueError
     <-> count_occ N.eq_dec owner_repo SLASH <> 1%nat)
    /\ (count_occ N.eq_dec owner_repo SLASH = 1%nat ->
        exists owner repo,
          split SLASH owner_repo = [owner; repo]
          /\ owner_repo = owner ++ [SLASH] ++ repo).
Proof.
  intros net owner_repo token.
  pose proof (split_length SLASH owner_repo) as L.
  pose proof (join_split SLASH owner_repo) as J.
  unfold Inference.scan_github_repo.
  destruct (split SLASH owner_repo) as [|a [|b [|c l]]]; cbn [length] in L.
  - discriminate.
  - split; [split; [intros _; lia|reflexivity]|intros H; lia].
  - split.
    + split; [|intros H; lia].
      destruct (Inference.is_error_status _); discriminate.
    + intros _. exists a, b. split; [reflexivity|]. symmetry. exact J.
  - split; [split; [intros _; lia|reflexivity]|intros H; lia].
Qed.

Lemma remote_scan_argument_witness :
  Inference.scan_github_repo readme_net (lit "https://github.com/o/r") None
  = Inference.Raise Inference.ValueError
  /\ exists owner repo, split SLASH (lit "o/r") = [owner; repo]
                        /\ lit "o/r" = owner ++ [SLASH] ++ repo.
Proof.
  destruct (remote_scan_argument readme_net (lit "https://github.com/o/r") None)
    as [H1 _].
  destruct (remote_scan_argument readme_net (lit "o/r") None) as [_ H2].
  split.
  - apply H1. vm_compute. discriminate.
  - apply H2. vm_compute. reflexivity.
Defined.

(** * More on the examples of the dataset *)

Lemma find_first : forall {A} (f : A -> bool) l x,
    find f l = Some x ->
    exists before after,
      l = before ++ x :: after /\ f x = true
      /\ forall y, In y before -> f y = false.
Proof.
  intros A f l. induction l as [|a l IH]; intros x H; [discriminate|].
  simpl in H. destruct (f a) eqn:E.
  - injection H as H. subst a. exists [], l. split; [reflexivity|].
    split; [exact E|intros y []].
  - destruct (IH x H) as [before [after [Hl [Hx Hb]]]].
    exists (a :: before), after. subst l. split; [reflexivity|].
    split; [exact Hx|]. intros y [Hy|Hy]; [subst y; exact E|exact (Hb y Hy)].
Qed.

Lemma lower_keeps_slash : forall p, In SLASH p -> In SLASH (lower p).
Proof.
  intros p H. unfold lower. apply in_map_iff. exists SLASH.
  split; [reflexivity|exact H].
Qed.

Lemma readme_name_has_no_slash : forall n,
    In n PrepareData.README_NAMES -> ~ In SLASH n.
Proof.
  intros n H. apply not_In_check.
  destruct H as [H|[H|[H|[H|[]]]]]; subst n; reflexivity.
Qed.

(** X17. The README of a repository is the first blob of the tree, in the
    order of the tree, whose path is [readme.md], [readme.rst], [readme.txt]
    or [readme] up to the case of its letters: its path has no slash, so a
    README below a directory is never taken. *)
Theorem readme_is_first_at_the_root :
  forall tree readme_path,
    PrepareData.find_readme tree = Some readme_path ->
    ~ In SLASH readme_path
    /\ exists before it after,
        tree = before ++ it :: after
        /\ path it = readme_path
        /\ type it = BLOB
        /\ In (lower readme_path) PrepareData.README_NAMES
        /\ forall e, In e before -> PrepareData.is_readme e = false.
Proof.
  intros tree readme_path H. unfold PrepareData.find_readme in H.
  destruct (find PrepareData.is_readme tree) as [it|] eqn:E; [|discriminate].
  injection H as H.
  destruct (find_first _ _ _ E) as [before [after [Ht [Hr Hb]]]].
  destruct (is_readme_true it Hr) as [Hblob Hname]. rewrite H in Hname.
  split.
  - intros Hs. apply lower_keeps_slash in Hs.
    exact (readme_name_has_no_slash _ Hname Hs).
  - exists before, it, after. auto.
Qed.

Lemma readme_is_first_at_the_root_witness :
  PrepareData.find_readme nested_readme_tree = Some (lit "ReadMe.MD")
  /\ ~ In SLASH (lit "ReadMe.MD").
Proof.
  split; [reflexivity|].
  apply (readme_is_first_at_the_root nested_readme_tree). reflexivity.
Defined.

Lemma collect_page_eq : forall net token repos exs n,
    PrepareData.collect_page net repos token exs n
    = (exs ++ new_examples net token repos,
       n + len (new_examples net token repos)).
Proof.
  intros net token repos.
  induction repos as [|info rest IH]; intros exs n.
  - simpl. rewrite app_nil_r, Z.add_0_r. reflexivity.
  - cbn [PrepareData.collect_page new_examples flat_map].
    fold (new_examples net token rest).
    destruct (PrepareData.process_repo net info token) as [ex|].
    + rewrite IH, <- app_assoc. cbn [app]. f_equal.
      unfold len. cbn [length]. lia.
    + rewrite IH. reflexivity.
Qed.

Lemma new_examples_length : forall net token repos,
    len (new_examples net token repos) <= len repos.
Proof.
  intros net token repos. unfold len.
  induction repos as [|info rest IH]; [simpl; lia|].
  cbn [new_examples flat_map]. fold (new_examples net token rest).
  destruct (PrepareData.process_repo net info token);
    cbn [app length]; lia.
Qed.

(** X18. A page of repositories appends its examples after the examples
    collected so far, in the order of the page and at most one for each
    repository, and the counter grows by their number. *)
Theorem collect_page_accounting :
  forall net token repos exs n,
    PrepareData.collect_page net repos token exs n
    = (exs ++ new_examples net token repos,
       n + len (new_examples net token repos))
    /\ len (new_examples net token repos) <= len repos.
Proof.
  intros. split; [apply collect_page_eq|apply new_examples_length].
Qed.

(** * The statistics of the dataset *)

Lemma dict_step_get : forall d k l,
    Collect.dict_get (Collect.dict_set d k (Collect.dict_get d k 0 + 1)) l 0
    = Collect.dict_get d l 0 + (if str_eqb k l then 1 else 0).
Proof.
  intros d k l. induction d as [|[k' v] d IH].
  - simpl. destruct (str_eqb k l); lia.
  - cbn [Collect.dict_get Collect.dict_set].
    destruct (str_eqb k' k) eqn:E.
    + apply str_eqb_eq in E. subst k'. cbn [Collect.dict_get].
      destruct (str_eqb k l); lia.
    + cbn [Collect.dict_get]. destruct (str_eqb k' l) eqn:El.
      * destruct (str_eqb k l) eqn:Ekl; [|lia].
        apply str_eqb_eq in El. apply str_eqb_eq in Ekl. subst.
        rewrite str_eqb_refl in E. discriminate.
      * exact IH.
Qed.

Lemma dict_step_sum : forall d k,
    sum_values (Collect.dict_set d k (Collect.dict_get d k 0 + 1))
    = sum_values d + 1.
Proof.
  intros d k. induction d as [|[k' v] d IH]; [reflexivity|].
  cbn [Collect.dict_get Collect.dict_set].
  destruct (str_eqb k' k); cbn [sum_values fold_right snd] in *.
  - lia.
  - fold (sum_values (Collect.dict_set d k (Collect.dict_get d k 0 + 1))).
    fold (sum_values d). lia.
Qed.

Lemma dict_set_keys : forall d k v x,
    In x (map fst (Collect.dict_set d k v)) <-> In x (map fst d) \/ x = k.
Proof.
  intros d k v x. induction d as [|[k' v'] d IH]; simpl.
  - intuition auto.
  - destruct (str_eqb k' k) eqn:E; simpl.
    + apply str_eqb_eq in E. subst k'. intuition auto.
    + rewrite IH. intuition auto.
Qed.

Lemma dict_set_NoDup : forall d k v,
    NoDup (map fst d) -> NoDup (map fst (Collect.dict_set d k v)).
Proof.
  intros d k v. induction d as [|[k' v'] d IH]; intros H; simpl.
  - repeat constructor. intros [].
  - destruct (str_eqb k' k) eqn:E; simpl; [exact H|].
    inversion H as [|x xs Hx Hxs]; subst. constructor; [|apply IH; exact Hxs].
    intros Hin. apply dict_set_keys in Hin. destruct Hin as [Hin|Hin].
    + contradiction.
    + subst k'. rewrite str_eqb_refl in E. discriminate.
Qed.

Lemma by_language_from : forall exs d l,
    let d' := fold_left (fun d ex =>
                           let lang := PrepareData.language ex in
                           Collect.dict_set d lang
                                            (Collect.dict_get d lang 0 + 1))
                        exs d in
    Collect.dict_get d' l 0 = Collect.dict_get d l 0 + count_language l exs
    /\ sum_values d' = sum_values d + len exs
    /\ (NoDup (map fst d) -> NoDup (map fst d'))
    /\ (In l (map fst d')
        <-> In l (map fst d)
            \/ exists ex, In ex exs /\ PrepareData.language ex = l).
Proof.
  intros exs. induction exs as [|ex exs IH]; intros d l; cbn zeta.
  - cbn [fold_left]. unfold count_language, len. cbn [filter length].
    repeat split; try lia; try tauto.
    intros [H|[ex [[] _]]]. exact H.
  - cbn [fold_left].
    destruct (IH (Collect.dict_set d (PrepareData.language ex)
                    (Collect.dict_get d (PrepareData.language ex) 0 + 1)) l)
      as [H1 [H2 [H3 H4]]].
    cbn zeta in *. split; [|split; [|split]].
    + rewrite H1, dict_step_get. unfold count_language, len.
      cbn [filter]. destruct (str_eqb (PrepareData.language ex) l);
        cbn [length]; lia.
    + rewrite H2, dict_step_sum. unfold len. cbn [length]. lia.
    + intros Hd. apply H3. apply dict_set_NoDup. exact Hd.
    + rewrite H4, dict_set_keys. split.
      * intros [[H|H]|[e [He Hl]]].
        -- left. exact H.
        -- right. exists ex. split; [left; reflexivity|congruence].
        -- right. exists e. split; [right; exact He|exact Hl].
      * intros [H|[e [[He|He] Hl]]].
        -- left. left. exact H.
        -- subst e. left. right. congruence.
        -- right. exists e. split; [exact He|exact Hl].
Qed.

(** X19. In the statistics, each language of an example is a key once, its
    value is the number of examples of that language, a language without an
    example is no key, and the values add up to the number of examples. *)
Theorem by_language_counts :
  forall exs lang,
    Collect.dict_get (Collect.by_language exs) lang 0 = count_language lang exs
    /\ sum_values (Collect.by_language exs) = len exs
    /\ NoDup (map fst (Collect.by_language exs))
    /\ (In lang (map fst (Collect.by_language exs))
        <-> exists ex, In ex exs /\ PrepareData.language ex = lang).
Proof.
  intros exs lang. unfold Collect.by_language.
  destruct (by_language_from exs [] lang) as [H1 [H2 [H3 H4]]].
  cbn zeta in *. split; [|split; [|split]].
  - rewrite H1. reflexivity.
  - rewrite H2. reflexivity.
  - apply H3. constructor.
  - rewrite H4. simpl. tauto.
Qed.

Lemma by_language_counts_witness :
  Collect.dict_get (Collect.by_language three_examples) (lit "Go") 0 = 2
  /\ exists ex, In ex three_examples /\ PrepareData.language ex = lit "Rust".
Proof.
  destruct (by_language_counts three_examples (lit "Go")) as [H _].
  destruct (by_language_counts three_examples (lit "Rust")) as [_ [_ [_ H']]].
  split.
  - rewrite H. reflexivity.
  - apply H'. apply mem_In. reflexivity.
Defined.

(** * The walk of the local scan *)






(** * The prompt and the files of a comparison *)

(** X21. The prompt of the evaluation, on the fields of an example, and the
    prompt of the demonstration are the prompt of the inference script. *)
Theorem prompts_agree :
  forall (ex : PrepareData.example) (repo_name file_tree code_snippets : str),
    Evaluate.build_prompt ex
    = Inference.build_prompt (PrepareData.repo_name ex)
                             (PrepareData.file_tree ex)
                             (PrepareData.code_snippets ex)
    /\ App.build_prompt repo_name file_tree code_snippets
       = Inference.build_prompt repo_name file_tree code_snippets.
Proof. intros. split; reflexivity. Qed.

Lemma rfind_from_absent : forall c s i found,
    ~ In c s -> rfind_from c i found s = found.
Proof.
  intros c s. induction s as [|x s IH]; intros i found H; [reflexivity|].
  cbn [rfind_from]. destruct (N.eqb_spec x c) as [E|E].
  - exfalso. apply H. left. exact E.
  - apply IH. intros Hin. apply H. right. exact Hin.
Qed.

Lemma rfind_from_last : forall c a b i found,
    ~ In c b -> rfind_from c i found (a ++ c :: b) = i + len a.
Proof.
  intros c a b. induction a as [|x a IH]; intros i found H.
  - cbn [app rfind_from]. rewrite N.eqb_refl.
    rewrite (rfind_from_absent c b _ _ H). unfold len. simpl. lia.
  - cbn [app rfind_from]. rewrite (IH _ _ H). unfold len.
    cbn [length]. lia.
Qed.

Lemma basename_after_slash : forall a b,
    ~ In SLASH b -> basename (a ++ SLASH :: b) = b.
Proof.
  intros a b H. unfold basename, rfind, slice_from.
  rewrite (rfind_from_last SLASH a b 0 (-1) H). unfold len.
  replace (Z.to_nat (0 + Z.of_nat (length a) + 1)) with (length a + 1)%nat
    by lia.
  rewrite skipn_app, skipn_all2 by lia.
  replace (length a + 1 - length a)%nat with 1%nat by lia. reflexivity.
Qed.

Lemma basename_without_slash : forall b, ~ In SLASH b -> basename b = b.
Proof.
  intros b H. unfold basename, rfind, slice_from.
  rewrite (rfind_from_absent SLASH b 0 (-1) H). reflexivity.
Qed.

Lemma safe_name_has_no_slash : forall repo_name,
    ~ In SLASH (Inference.safe_name repo_name).
Proof.
  intros repo_name H. unfold Inference.safe_name, replace_char in H.
  apply in_map_iff in H. destruct H as [c [Hc _]].
  destruct (N.eqb_spec c SLASH) as [E|E]; [discriminate|].
  exact (E Hc).
Qed.

Lemma endswith_slash : forall a,
    endswith [SLASH] a = true -> exists a', a = a' ++ [SLASH].
Proof.
  intros a H. unfold endswith in H. cbn [rev app] in H.
  destruct (rev a) as [|x r] eqn:E; [discriminate|].
  cbn [startswith] in H. apply andb_true_iff in H. destruct H as [H _].
  apply N.eqb_eq in H. subst x. exists (rev r).
  rewrite <- (rev_involutive a), E. reflexivity.
Qed.

Lemma path_join_basename : forall a b,
    ~ In SLASH b -> basename (path_join a b) = b.
Proof.
  intros a b H. unfold path_join.
  destruct (startswith [SLASH] b) eqn:Es.
  - exfalso. destruct b as [|x b]; [discriminate|].
    cbn [startswith] in Es. apply andb_true_iff in Es. destruct Es as [Es _].
    apply N.eqb_eq in Es. apply H. left. symmetry. exact Es.
  - destruct a as [|x a]; [apply basename_without_slash; exact H|].
    destruct (endswith [SLASH] (x :: a)) eqn:Ee.
    + destruct (endswith_slash _ Ee) as [a' Ha]. rewrite Ha, <- app_assoc.
      apply basename_after_slash. exact H.
    + apply basename_after_slash. exact H.
Qed.

(** X22. The name under which a comparison is saved has no slash and the
    length of the repository name, and it is the repository name when that
    has no slash; so the two files of a comparison lie in the output
    directory itself, under that name and their suffix. *)
Theorem comparison_files_lie_in_output_dir :
  forall repo_name output_dir : str,
    ~ In SLASH (Inference.safe_name repo_name)
    /\ len (Inference.safe_name repo_name) = len repo_name
    /\ (~ In SLASH repo_name -> Inference.safe_name repo_name = repo_name)
    /\ basename (Inference.json_path repo_name output_dir)
       = Inference.safe_name repo_name ++ lit "_comparison.json"
    /\ basename (Inference.md_path repo_name output_dir)
       = Inference.safe_name repo_name ++ lit "_comparison.md".
Proof.
  intros repo_name output_dir.
  pose proof (safe_name_has_no_slash repo_name) as Hs.
  split; [exact Hs|]. split; [|split; [|split]].
  - unfold Inference.safe_name, replace_char, len. rewrite length_map.
    reflexivity.
  - intros H. unfold Inference.safe_name, replace_char.
    rewrite <- (map_id repo_name) at 2. apply map_ext_in.
    intros c Hc. destruct (N.eqb_spec c SLASH) as [E|E]; [|reflexivity].
    subst c. contradiction.
  - apply path_join_basename. intros H. apply in_app_or in H.
    destruct H as [H|H]; [contradiction|].
    revert H. apply not_In_check. reflexivity.
  - apply path_join_basename. intros H. apply in_app_or in H.
    destruct H as [H|H]; [contradiction|].
    revert H. apply not_In_check. reflexivity.
Qed.

Lemma comparison_files_lie_in_output_dir_witness :
  Inference.safe_name (lit "main.py") = lit "main.py"
  /\ Inference.json_path (lit "octo/cat") (lit "outputs/comparisons")
     = lit "outputs/comparisons/octo_cat_comparison.json".
Proof.
  split; [|reflexivity].
  apply (comparison_files_lie_in_output_dir (lit "main.py") []).
  apply not_In_check. reflexivity.
Defined.

(** * The collection loop *)

Lemma language_loop_done : forall net answers token lang target st,
    target <= Collect.collected st ->
    Collect.language_loop net answers token lang target st
    = Collect.Finished (answers, st).
Proof.
  intros net answers token lang target st H.
  destruct answers; cbn [Collect.language_loop];
    destruct (Z.ltb_spec (Collect.collected st) target); try lia; reflexivity.
Qed.

(** One turn of the loop on the answer of the service. *)
Lemma language_loop_turn : forall net server rest token lang target st,
    Collect.collected st < target ->
    Collect.language_loop net (server :: rest) token lang target st
    = if Inference.is_error_status
           (status_code (turn_answer server token lang target st))
      then if status_code (turn_answer server token lang target st) =? 403
           then Collect.language_loop net rest token lang target st
           else Collect.Failed
                  (Inference.HTTPError
                     (status_code (turn_answer server token lang target st)))
      else match body (turn_answer server token lang target st) with
           | [] => Collect.Finished (rest, st)
           | _ :: _ =>
               Collect.language_loop
                 net rest token lang target
                 {| Collect.examples :=
                      Collect.examples st
                      ++ new_examples
                           net token
                           (body (turn_answer server token lang target st));
                    Collect.collected :=
                      Collect.collected st
                      + len (new_examples
                               net token
                               (body (turn_answer server token lang target st)));
                    Collect.current_page := Collect.current_page st + 1 |}
           end.
Proof.
  intros net server rest token lang target st H.
  cbn [Collect.language_loop].
  destruct (Z.ltb_spec (Collect.collected st) target); [|lia].
  unfold Collect.search_repos.
  fold (turn_answer server token lang target st).
  destruct (Inference.is_error_status
              (status_code (turn_answer server token lang target st)));
    [reflexivity|].
  destruct (body (turn_answer server token lang target st)) as [|r rs];
    [reflexivity|].
  rewrite collect_page_eq. reflexivity.
Qed.

Lemma honest_turn : forall server token lang target st,
    honest server ->
    Collect.collected st < target ->
    len (body (turn_answer server token lang target st))
    <= Z.min 100 (target - Collect.collected st).
Proof.
  intros server token lang target st H Hlt. unfold turn_answer.
  match goal with |- context [server ?u ?h ?params] =>
    apply (H u h params) end.
  cbn [Collect.per_page]. lia.
Qed.

Lemma language_loop_finished :
  forall net answers token lang target st rest st',
    Forall honest answers ->
    Collect.language_loop net answers token lang target st
    = Collect.Finished (rest, st') ->
    (exists used, answers = used ++ rest)
    /\ (exists new, Collect.examples st' = Collect.examples st ++ new
                    /\ Collect.collected st'
                       = Collect.collected st + len new)
    /\ Collect.collected st' <= Z.max target (Collect.collected st).
Proof.
  intros net answers token lang target.
  induction answers as [|server more IH]; intros st rest st' Hh H.
  - cbn [Collect.language_loop] in H.
    destruct (Collect.collected st <? target); [discriminate|].
    injection H as H1 H2. subst rest st'.
    split; [exists []; reflexivity|]. split; [|lia].
    exists []. rewrite app_nil_r. split; [reflexivity|unfold len; simpl; lia].
  - destruct (Z.lt_ge_cases (Collect.collected st) target) as [Hlt|Hge].
    + rewrite (language_loop_turn net server more token lang target st Hlt) in H.
      inversion Hh as [|x xs Hserver Hmore]; subst.
      pose proof (honest_turn server token lang target st Hserver Hlt)
        as Hpage.
      destruct (Inference.is_error_status
                  (status_code (turn_answer server token lang target st))).
      * destruct (status_code (turn_answer server token lang target st) =? 403);
          [|discriminate].
        destruct (IH st rest st' Hmore H) as [[used Hu] [Hn Hb]].
        split; [exists (server :: used); rewrite Hu; reflexivity|].
        split; [exact Hn|exact Hb].
      * destruct (body (turn_answer server token lang target st))
          as [|r rs] eqn:Eb.
        -- injection H as H1 H2. subst rest st'.
           split; [exists [server]; reflexivity|]. split; [|lia].
           exists []. rewrite app_nil_r.
           split; [reflexivity|unfold len; simpl; lia].
        -- pose proof (new_examples_length net token (r :: rs)) as Hnew.
           destruct (IH _ rest st' Hmore H) as [[used Hu] [[new [Hn1 Hn2]] Hb]].
           cbn [Collect.examples Collect.collected] in *.
           split; [exists (server :: used); rewrite Hu; reflexivity|].
           split.
           ++ exists (new_examples net token (r :: rs) ++ new).
              rewrite Hn1, Hn2, <- app_assoc. split; [reflexivity|].
              unfold len. rewrite length_app. lia.
           ++ lia.
    + rewrite language_loop_done in H by lia.
      injection H as H1 H2. subst rest st'.
      split; [exists []; reflexivity|]. split; [|lia].
      exists []. rewrite app_nil_r. split; [reflexivity|unfold len; simpl; lia].
Qed.

Lemma languages_loop_finished :
  forall net languages answers token target exs rest exs',
    0 <= target ->
    Forall honest answers ->
    Collect.languages_loop net languages answers token target exs
    = Collect.Finished (rest, exs') ->
    len exs' <= len exs + len languages * target.
Proof.
  intros net languages.
  induction languages as [|lang more IH];
    intros answers token target exs rest exs' Ht Hh H.
  - cbn [Collect.languages_loop] in H. injection H as H1 H2. subst.
    unfold len. simpl. lia.
  - cbn [Collect.languages_loop] in H.
    destruct (Collect.language_loop net answers token lang target
                {| Collect.examples := exs; Collect.collected := 0;
                   Collect.current_page := 1 |})
      as [[rest1 st1]|e|st1] eqn:E; [|discriminate|discriminate].
    destruct (language_loop_finished _ _ _ _ _ _ _ _ Hh E)
      as [[used Hu] [[new [Hn1 Hn2]] Hb]].
    cbn [Collect.examples Collect.collected] in *.
    assert (Hh1 : Forall honest rest1).
    { rewrite Hu in Hh. apply Forall_app in Hh. tauto. }
    pose proof (IH rest1 token target (Collect.examples st1) rest exs'
                   Ht Hh1 H) as Hlen.
    rewrite Hn1 in Hlen. unfold len in *. rewrite length_app in Hlen.
    cbn [length]. nia.
Qed.

(** X23. When no answer of the search holds more repositories than the
    page size it is asked for, a collection that comes to its end has at
    most [num_repos] examples; the statistics it writes are the number of
    its examples and their count by language. *)
Theorem collection_stays_within_num_repos :
  forall net answers token num_repos exs stats,
    0 <= num_repos ->
    Forall honest answers ->
    Collect.collect_dataset net answers token num_repos
    = Collect.Finished (exs, stats) ->
    len exs <= num_repos
    /\ stats = (len exs, Collect.by_language exs).
Proof.
  intros net answers token num_repos exs stats Hn Hh H.
  unfold Collect.collect_dataset in H.
  destruct (Collect.languages_loop net Collect.LANGUAGES answers token
              (num_repos / len Collect.LANGUAGES) [])
    as [[rest exs1]|e|exs1] eqn:E; [|discriminate|discriminate].
  injection H as H1 H2. subst exs1 stats. split; [|reflexivity].
  change (len Collect.LANGUAGES) with 10 in E.
  assert (Ht : 0 <= num_repos / 10) by (apply Z.div_pos; lia).
  pose proof (languages_loop_finished _ _ _ _ _ _ _ _ Ht Hh E) as Hlen.
  change (len Collect.LANGUAGES) with 10 in Hlen.
  change (len (@nil PrepareData.example)) with 0 in Hlen.
  pose proof (Z.mul_div_le num_repos 10 ltac:(lia)). lia.
Qed.

Lemma collection_stays_within_num_repos_witness :
  exists exs stats,
    Collect.collect_dataset readme_net (repeat one_repo_answer 10) None 10
    = Collect.Finished (exs, stats)
    /\ len exs <= 10.
Proof.
  destruct (Collect.collect_dataset readme_net (repeat one_repo_answer 10)
                                    None 10) as [[exs stats]|e|exs] eqn:E.
  - exists exs, stats. split; [reflexivity|].
    apply (collection_stays_within_num_repos
             readme_net (repeat one_repo_answer 10) None 10 exs stats).
    + lia.
    + apply Forall_forall. intros server Hs. apply repeat_spec in Hs.
      subst server. intros url hdrs params Hpos. unfold one_repo_answer.
      cbn [body]. destruct (Z.leb_spec 1 (Collect.per_page params));
        unfold len; cbn [length]; lia.
    + exact E.
  - exfalso. vm_compute in E. discriminate.
  - exfalso. vm_compute in E. discriminate.
Defined.

(** X24. A search that is refused with status 403 is asked again with the
    same page, the same counter and the same examples, as often as it is
    refused: the loop of a language has no end while every answer is such a
    refusal.  Any other error status leaves the loop as an exception. *)
Theorem refused_search_is_retried :
  forall net token lang target st,
    Collect.collected st < target ->
    (forall refusals rest,
        Forall rate_limited refusals ->
        Collect.language_loop net (refusals ++ rest) token lang target st
        = Collect.language_loop net rest token lang target st)
    /\ (forall refusals,
           Forall rate_limited refusals ->
           Collect.language_loop net refusals token lang target st
           = Collect.Asking st)
    /\ (forall server rest status,
           (forall url hdrs params,
               status_code (server url hdrs params) = status) ->
           400 <= status < 600 -> status <> 403 ->
           Collect.language_loop net (server :: rest) token lang target st
           = Collect.Failed (Inference.HTTPError status)).
Proof.
  intros net token lang target st Hlt.
  assert (Hretry : forall refusals rest,
             Forall rate_limited refusals ->
             Collect.language_loop net (refusals ++ rest) token lang target st
             = Collect.language_loop net rest token lang target st).
  { intros refusals rest Hr.
    induction Hr as [|server more Hs Hm IH]; [reflexivity|].
    cbn [app]. rewrite language_loop_turn by exact Hlt.
    unfold turn_answer. rewrite Hs. exact IH. }
  split; [exact Hretry|]. split.
  - intros refusals Hr. rewrite <- (app_nil_r refusals), Hretry by exact Hr.
    cbn [Collect.language_loop].
    destruct (Z.ltb_spec (Collect.collected st) target); [reflexivity|lia].
  - intros server rest status Hs Hrange Hne.
    rewrite language_loop_turn by exact Hlt.
    unfold turn_answer. rewrite Hs.
    unfold Inference.is_error_status.
    destruct (Z.leb_spec 400 status); [|lia].
    destruct (Z.ltb_spec status 600); [|lia].
    destruct (Z.eqb_spec status 403); [contradiction|reflexivity].
Qed.

Lemma refused_search_is_retried_witness :
  Collect.language_loop readme_net (repeat refusal 5) None (lit "Go") 3 fresh
  = Collect.Asking fresh
  /\ Collect.language_loop readme_net [refusal; broken] None (lit "Go") 3 fresh
     = Collect.Failed (Inference.HTTPError 500).
Proof.
  destruct (refused_search_is_retried readme_net None (lit "Go") 3 fresh)
    as [H1 [H2 H3]]; [reflexivity|].
  split.
  - apply H2. apply Forall_forall. intros server Hs.
    apply repeat_spec in Hs. subst server. intros url hdrs params. reflexivity.
  - change [refusal; broken] with ([refusal] ++ [broken]).
    rewrite (H1 [refusal] [broken]).
    + apply H3; [intros; reflexivity|lia|discriminate].
    + repeat constructor.
Defined.
